(** * repetedwords.py: a word-frequency counter

    Shallow embedding of [src/repetedwords.py] and the properties of its
    pipeline: clean -> count -> filter -> sort -> render.

    Text is a [string] whose characters are the code points U+0000..U+00FF
    (one [ascii] per code point), classified the way Python's [str] methods
    and the [re] module classify them on that range.  Python [int]s are [Z].
    A [Counter] is a [dict]: an insertion-ordered association list with
    unique keys.  Printing and file access are recorded as a trace of
    events. *)

From Stdlib Require Import ZArith List Bool Lia Ascii String.
From Stdlib Require Import Permutation Sorted DecimalString.
Import ListNotations.

Local Open Scope string_scope.
Local Open Scope list_scope.

(** ** Python [str] on the code points U+0000..U+00FF *)

Module Str.

Definition code (c : ascii) : N := N_of_ascii c.

Definition between (lo hi n : N) : bool := ((lo <=? n) && (n <=? hi))%N.

(** [str.isspace] of one character; it is also the class [\s] and the
    set that [split()] and [strip()] use. *)
Definition isspace (c : ascii) : bool :=
  let n := code c in
  between 9 13 n || between 28 32 n || (n =? 133)%N || (n =? 160)%N.

(** [str.isalnum] of one character. *)
Definition isalnum (c : ascii) : bool :=
  let n := code c in
  between 48 57 n || between 65 90 n || between 97 122 n
  || (n =? 170)%N || (n =? 178)%N || (n =? 179)%N || (n =? 181)%N
  || (n =? 185)%N || (n =? 186)%N || between 188 190 n
  || between 192 214 n || between 216 246 n || between 248 255 n.

(** The class [\w]: alphanumeric or underscore. *)
Definition isword (c : ascii) : bool := isalnum c || (code c =? 95)%N.

Definition lower_char (c : ascii) : ascii :=
  let n := code c in
  if between 65 90 n || between 192 214 n || between 216 222 n
  then ascii_of_N (n + 32) else c.

(** [s.lower()], exact on the code points modelled here, where it maps
    characters one by one.  (Beyond U+00FF lowering can lengthen a string
    and depend on the neighbours of a character.) *)
Fixpoint lower (s : string) : string :=
  match s with
  | EmptyString => EmptyString
  | String c r => String (lower_char c) (lower r)
  end.

Fixpoint lstrip (s : string) : string :=
  match s with
  | EmptyString => EmptyString
  | String c r => if isspace c then lstrip r else s
  end.

Fixpoint rstrip (s : string) : string :=
  match s with
  | EmptyString => EmptyString
  | String c r =>
      match rstrip r with
      | EmptyString => if isspace c then EmptyString else String c EmptyString
      | r' => String c r'
      end
  end.

(** [s.strip()] *)
Definition strip (s : string) : string := rstrip (lstrip s).

(** The empty string is falsy, every other string truthy. *)
Definition truthy (s : string) : bool :=
  match s with EmptyString => false | String _ _ => true end.

(** [split_from cur s]: the scan of [s.split()] with the token [cur]
    under construction. *)
Fixpoint split_from (cur s : string) : list string :=
  match s with
  | EmptyString => if truthy cur then [cur] else []
  | String c r =>
      if isspace c
      then (if truthy cur then cur :: split_from EmptyString r
            else split_from EmptyString r)
      else split_from (cur ++ String c EmptyString) r
  end.

(** [s.split()]: maximal runs of characters that are not whitespace. *)
Definition split (s : string) : list string := split_from EmptyString s.

(** No character of [s] is whitespace. *)
Fixpoint no_space (s : string) : bool :=
  match s with
  | EmptyString => true
  | String c r => negb (isspace c) && no_space r
  end.

(** The characters of [s] that satisfy [keep], in order. *)
Fixpoint select (keep : ascii -> bool) (s : string) : string :=
  match s with
  | EmptyString => EmptyString
  | String c r => if keep c then String c (select keep r) else select keep r
  end.

Fixpoint repeat (c : ascii) (n : nat) : string :=
  match n with
  | O => EmptyString
  | S m => String c (repeat c m)
  end.

(** [format(s, '<w')]: left-justified in a field of at least [w]. *)
Definition ljust (s : string) (w : nat) : string :=
  s ++ repeat " "%char (w - String.length s).

(** [str(n)] of an [int]. *)
Definition of_int (n : Z) : string := NilEmpty.string_of_int (Z.to_int n).

(** [str(b)] of a [bool]. *)
Definition of_bool (b : bool) : string := if b then "True" else "False".

Definition newline : string := String (ascii_of_nat 10) EmptyString.

(** Comparison of [str]: lexicographic on code points. *)
Definition lt (a b : string) : bool := String.ltb a b.

End Str.

(** ** [collections.Counter] *)

Definition Counter := list (string * Z).

Module Cnt.

(** [wc[k]] on a [Counter]: a missing key reads as 0. *)
Fixpoint get (wc : Counter) (k : string) : Z :=
  match wc with
  | [] => 0%Z
  | (k', v) :: r => if String.eqb k' k then v else get r k
  end.

(** [wc[k] = v]: an existing key keeps its place, a new one goes last. *)
Fixpoint set (wc : Counter) (k : string) (v : Z) : Counter :=
  match wc with
  | [] => [(k, v)]
  | (k', v') :: r =>
      if String.eqb k' k then (k', v) :: r else (k', v') :: set r k v
  end.

(** [wc[k] += 1] *)
Definition incr (wc : Counter) (k : string) : Counter :=
  set wc k (get wc k + 1)%Z.

Definition keys (wc : Counter) : list string := map fst wc.
Definition values (wc : Counter) : list Z := map snd wc.

(** [sum(wc.values())] *)
Definition total (wc : Counter) : Z := fold_left Z.add (values wc) 0%Z.

End Cnt.

(** ** [clean_word] *)

(** [re.sub(r'[^\w\s]', '', s)] *)
Definition re_sub_punct (s : string) : string :=
  Str.select (fun c => Str.isword c || Str.isspace c) s.

Definition clean_word (word : string) : option string :=
  let cleaned := re_sub_punct (Str.strip (Str.lower word)) in
  if Str.truthy cleaned then Some cleaned else None.

(** ** [count_words_from_file] *)

Definition common_words : list string :=
  [ "the"; "a"; "an"; "and"; "or"; "but"; "in"; "on"; "at"; "to"; "for";
    "of"; "with"; "by"; "is"; "are"; "was"; "were"; "be"; "been"; "being";
    "have"; "has"; "had"; "do"; "does"; "did"; "will"; "would"; "could";
    "should"; "may"; "might"; "must"; "this"; "that"; "these"; "those";
    "i"; "you"; "he"; "she"; "it"; "we"; "they"; "me"; "him"; "her"; "us";
    "them"; "my"; "your"; "his"; "her"; "its"; "our"; "their" ].

Definition is_common (w : string) : bool :=
  existsb (String.eqb w) common_words.

(** The value bound to [cleaned_word] in the inner loop; [None] is
    Python's [None]. *)
Definition cleaned_word (case_sensitive : bool) (word : string)
  : option string :=
  if case_sensitive then Some (Str.strip word) else clean_word word.

(** One iteration of the inner loop, [for word in words]. *)
Definition count_word (case_sensitive ignore_common_words : bool)
    (word_counts : Counter) (word : string) : Counter :=
  match cleaned_word case_sensitive word with
  | None => word_counts
  | Some w =>
      if negb (Str.truthy w) then word_counts
      else if ignore_common_words && is_common (Str.lower w) then word_counts
      else Cnt.incr word_counts w
  end.

(** The token reaches the increment: neither [continue] is taken. *)
Definition survives (case_sensitive ignore_common_words : bool)
    (word : string) : bool :=
  match cleaned_word case_sensitive word with
  | None => false
  | Some w =>
      Str.truthy w && negb (ignore_common_words && is_common (Str.lower w))
  end.

(** One iteration of the outer loop, [for line_num, line in enumerate(file, 1)]. *)
Definition count_line (case_sensitive ignore_common_words : bool)
    (word_counts : Counter) (line : string) : Counter :=
  fold_left (count_word case_sensitive ignore_common_words)
            (Str.split line) word_counts.

(** The whole loop over the lines the file yields, from [Counter()]. *)
Definition count_lines (case_sensitive ignore_common_words : bool)
    (lines : list string) : Counter :=
  fold_left (count_line case_sensitive ignore_common_words) lines [].

(** All the tokens of the lines, in reading order. *)
Definition tokens (lines : list string) : list string :=
  flat_map Str.split lines.

(** The invariant of the frequency mapping: unique keys, none empty,
    every count strictly positive. *)
Definition counter_inv (wc : Counter) : Prop :=
  NoDup (Cnt.keys wc)
  /\ Forall (fun x => fst x <> EmptyString /\ (0 < snd x)%Z) wc.

(** What reading the file does: the lines it yields, then either the end
    of the file ([None]) or an exception.  An [open] that fails yields no
    line.  The exceptions are the four the handlers tell apart. *)
Inductive exn :=
| FileNotFoundError
| PermissionError
| UnicodeDecodeError
| OtherException (msg : string).

Record file_read := { lines_read : list string; raised : option exn }.

(** The file system: what reading each path does. *)
Definition filesystem := string -> file_read.

(** What a run does that the outside sees, in order: a call of [print]
    with its text, a call of [open] with its path. *)
Inductive event :=
| Print (text : string)
| OpenFile (path : string).

Definition error_message (file_path : string) (e : exn) : string :=
  (match e with
   | FileNotFoundError => "Error: File '" ++ file_path ++ "' not found."
   | PermissionError =>
       "Error: Permission denied to read file '" ++ file_path ++ "'."
   | UnicodeDecodeError =>
       "Error: Unable to decode file '" ++ file_path
         ++ "'. Try a different encoding."
   | OtherException msg => "Error reading file: " ++ msg
   end)%string.

(** The events of the call and its return value; [None] is Python's
    [None].  The counts gathered before an exception are discarded. *)
Definition count_words_from_file (fs : filesystem) (file_path : string)
    (case_sensitive ignore_common_words : bool)
  : list event * option Counter :=
  let f := fs file_path in
  let word_counts :=
    count_lines case_sensitive ignore_common_words (lines_read f) in
  match raised f with
  | Some e => ([OpenFile file_path; Print (error_message file_path e)], None)
  | None => ([OpenFile file_path], Some word_counts)
  end.

(** ** [display_results] *)

(** The sort key [(-x[1], x[0])] and the order of such tuples. *)
Definition sort_key (x : string * Z) : Z * string := ((- snd x)%Z, fst x).

Definition key_lt (a b : Z * string) : bool :=
  (fst a <? fst b)%Z || ((fst a =? fst b)%Z && Str.lt (snd a) (snd b)).

(** [item_le a b]: the key of [b] is not below the key of [a], the
    relation a sort by key leaves between an entry and a later one. *)
Definition item_le (a b : string * Z) : Prop :=
  key_lt (sort_key b) (sort_key a) = false.

(** [sorted(items, key=sort_key)]: a stable sort, here by insertion. *)
Fixpoint insert_item (x : string * Z) (l : list (string * Z))
  : list (string * Z) :=
  match l with
  | [] => [x]
  | y :: r =>
      if key_lt (sort_key y) (sort_key x) then y :: insert_item x r
      else x :: y :: r
  end.

Definition sorted_by_key (items : list (string * Z)) : list (string * Z) :=
  fold_right insert_item [] items.

(** [l[:n]] *)
Definition slice_to {A : Type} (l : list A) (n : Z) : list A :=
  if (n <? 0)%Z then firstn (Z.to_nat (Z.of_nat (List.length l) + n)) l
  else firstn (Z.to_nat n) l.

(** [{word: count for word, count in word_counts.items() if count >= min_count}] *)
Definition filtered_counts (word_counts : Counter) (min_count : Z) : Counter :=
  filter (fun x => (min_count <=? snd x)%Z) word_counts.

(** The value of [sorted_words] when the table is printed; [top_n = None]
    is the default.  [if top_n:] is false for [None] and for 0. *)
Definition sorted_words (word_counts : Counter) (top_n : option Z)
    (min_count : Z) : list (string * Z) :=
  let sorted := sorted_by_key (filtered_counts word_counts min_count) in
  match top_n with
  | None => sorted
  | Some n => if (n =? 0)%Z then sorted else slice_to sorted n
  end.

Definition rule : string := Str.repeat "-"%char 50.

Definition table_row (x : string * Z) : string :=
  (Str.ljust (fst x) 20 ++ " " ++ Str.ljust (Str.of_int (snd x)) 10)%string.

Definition is_empty {A : Type} (l : list A) : bool :=
  match l with [] => true | _ :: _ => false end.

(** The lines [display_results] prints, one per [print] call. *)
Definition display_results (word_counts : Counter) (top_n : option Z)
    (min_count : Z) : list string :=
  if is_empty word_counts then ["No words found or error occurred."]
  else if is_empty (filtered_counts word_counts min_count) then
    [("No words found with at least " ++ Str.of_int min_count
        ++ " occurrence(s).")%string]
  else
    let sorted := sorted_words word_counts top_n min_count in
    [ (Str.newline ++ "Word Count Results (showing "
         ++ Str.of_int (Z.of_nat (List.length sorted)) ++ " words):")%string;
      rule;
      (Str.ljust "Word" 20 ++ " " ++ Str.ljust "Count" 10)%string;
      rule ]
    ++ map table_row sorted
    ++ [ rule;
         ("Total unique words: "
            ++ Str.of_int (Z.of_nat (List.length word_counts)))%string;
         ("Total word occurrences: "
            ++ Str.of_int (Cnt.total word_counts))%string ].

(** ** [main] *)

Definition usage : list string :=
  [ "Usage: python repetedwords.py <text_file> [options]";
    (Str.newline ++ "Options:")%string;
    "  --case-sensitive    Treat words as case sensitive";
    "  --ignore-common     Ignore common words (the, and, etc.)";
    "  --top <number>      Show only top N most frequent words";
    "  --min-count <number> Show only words with at least N occurrences";
    (Str.newline
       ++ "Example: python repetedwords.py sample.txt --top 10 --ignore-common")%string ].

(** [x in l] *)
Definition contains (x : string) (l : list string) : bool :=
  existsb (String.eqb x) l.

(** [l.index(x)]: the first position of [x]; [None] is [ValueError]. *)
Fixpoint index (x : string) (l : list string) : option nat :=
  match l with
  | [] => None
  | y :: r => if String.eqb y x then Some O else option_map S (index x r)
  end.

(** What the block that reads one numeric flag ends with: the variable
    left at its default, assigned, or the error branch taken. *)
Inductive flag_value :=
| Unset
| Assigned (n : Z)
| Rejected.

Definition top_error : string :=
  "Error: Invalid --top parameter. Must be a number.".
Definition min_count_error : string :=
  "Error: Invalid --min-count parameter. Must be a number.".

Definition preamble (file_path : string)
    (case_sensitive ignore_common : bool) : list string :=
  [ ("Analyzing file: " ++ file_path)%string;
    ("Case sensitive: " ++ Str.of_bool case_sensitive)%string;
    ("Ignore common words: " ++ Str.of_bool ignore_common)%string ].

(** What follows the call of [count_words_from_file] in [main]. *)
Definition report (word_counts : option Counter) (top_n : option Z)
    (min_count : Z) : list event :=
  match word_counts with
  | Some wc => map Print (display_results wc top_n min_count)
  | None => [Print "Failed to process the file."]
  end.

(** The part of [main] after the options are parsed. *)
Definition analyze (fs : filesystem) (file_path : string)
    (case_sensitive ignore_common : bool) (top_n : option Z)
    (min_count : Z) : list event :=
  let (events, word_counts) :=
    count_words_from_file fs file_path case_sensitive ignore_common in
  map Print (preamble file_path case_sensitive ignore_common)
  ++ events ++ report word_counts top_n min_count.

(** [top_n] and [min_count] after their blocks: the default unless
    assigned. *)
Definition top_n_of (f : flag_value) : option Z :=
  match f with Assigned n => Some n | _ => None end.

Definition min_count_of (f : flag_value) : Z :=
  match f with Assigned n => n | _ => 1%Z end.

(** A line that announces a failure: an [Error...] line or the closing
    line of a failed run. *)
Definition announces_failure (e : event) : bool :=
  match e with
  | Print text =>
      String.prefix "Error" text
      || String.eqb text "Failed to process the file."
  | OpenFile _ => false
  end.

Section Main.

(** [int(s)] of a [str]: [None] is [ValueError]. *)
Variable int : string -> option Z.

(** The block that reads one numeric flag.  [index] cannot fail after
    [contains], and the guard keeps the subscript in range. *)
Definition read_flag (flag : string) (argv : list string) : flag_value :=
  if contains flag argv then
    match index flag argv with
    | None => Rejected
    | Some i =>
        if (i + 1 <? List.length argv)%nat then
          match nth_error argv (i + 1) with
          | None => Rejected
          | Some v =>
              match int v with
              | Some n => Assigned n
              | None => Rejected
              end
          end
        else Unset
    end
  else Unset.

(** [main()] with [sys.argv = argv] on the file system [fs]. *)
Definition main (argv : list string) (fs : filesystem) : list event :=
  if (List.length argv <? 2)%nat then map Print usage
  else
    let file_path := nth 1 argv EmptyString in
    let case_sensitive := contains "--case-sensitive" argv in
    let ignore_common := contains "--ignore-common" argv in
    match read_flag "--top" argv with
    | Rejected => [Print top_error]
    | top =>
        match read_flag "--min-count" argv with
        | Rejected => [Print min_count_error]
        | mc =>
            analyze fs file_path case_sensitive ignore_common
                    (top_n_of top) (min_count_of mc)
        end
    end.

End Main.

(** ** [int] of a string

    The parser the concrete runs below use for [int]: whitespace around
    the literal is skipped, one sign may precede the digits, single
    underscores may stand between digits, and a literal of more than
    [int_max_str_digits] digits is refused as an ill-formed one is. *)

(** The whitespace [int] skips. *)
Definition int_space (c : ascii) : bool :=
  let n := Str.code c in
  Str.between 9 13 n || (n =? 32)%N || (n =? 133)%N || (n =? 160)%N.

Fixpoint skip_spaces (s : string) : string :=
  match s with
  | EmptyString => EmptyString
  | String c r => if int_space c then skip_spaces r else s
  end.

Fixpoint all_spaces (s : string) : bool :=
  match s with
  | EmptyString => true
  | String c r => int_space c && all_spaces r
  end.

(** [digits_value acc after_digit s]: the digits of [s] appended to
    [acc]; [after_digit] tells whether the previous character was a
    digit, which an underscore, the end and trailing whitespace need. *)
Fixpoint digits_value (acc : Z) (after_digit : bool) (s : string)
  : option Z :=
  match s with
  | EmptyString => if after_digit then Some acc else None
  | String c r =>
      let n := Str.code c in
      if Str.between 48 57 n
      then digits_value (10 * acc + Z.of_N (n - 48))%Z true r
      else if after_digit then
        if (n =? 95)%N then digits_value acc false r
        else if int_space c && all_spaces r then Some acc
        else None
      else None
  end.

(** The literal read without regard to its length. *)
Definition int_literal (s : string) : option Z :=
  match skip_spaces s with
  | String "-" r => option_map Z.opp (digits_value 0 false r)
  | String "+" r => digits_value 0 false r
  | r => digits_value 0 false r
  end.

(** [sys.get_int_max_str_digits()], at its default. *)
Definition int_max_str_digits : nat := 4300.

Definition is_digit (c : ascii) : bool := Str.between 48 57 (Str.code c).

Definition int_decimal (s : string) : option Z :=
  match int_literal s with
  | Some n =>
      if (String.length (Str.select is_digit s) <=? int_max_str_digits)%nat
      then Some n else None
  | None => None
  end.

(** The input of the specification's scenarios. *)
Definition scenario_line : string :=
  "The cat sat on the mat. The cat was happy.".

Definition fs_of (f : file_read) : filesystem := fun _ => f.

Definition scenario_fs : filesystem :=
  fs_of {| lines_read := [scenario_line]; raised := None |}.

Definition missing_fs : filesystem :=
  fs_of {| lines_read := []; raised := Some FileNotFoundError |}.

(** ** Notions the further properties are stated with *)

(** Every character of [s] satisfies [p]. *)
Fixpoint all_chars (p : ascii -> bool) (s : string) : bool :=
  match s with
  | EmptyString => true
  | String c r => p c && all_chars p r
  end.

(** The key a token is counted under, [None] when the loop body skips
    it: the value of [cleaned_word] when neither [continue] is taken. *)
Definition counting_key (case_sensitive ignore_common_words : bool)
    (word : string) : option string :=
  match cleaned_word case_sensitive word with
  | None => None
  | Some w =>
      if negb (Str.truthy w) then None
      else if ignore_common_words && is_common (Str.lower w) then None
      else Some w
  end.

(** The keys of the tokens that are counted, one per counted token, in
    reading order. *)
Definition counted_keys (case_sensitive ignore_common_words : bool)
    (words : list string) : list string :=
  flat_map
    (fun word =>
       match counting_key case_sensitive ignore_common_words word with
       | Some w => [w]
       | None => []
       end)
    words.

Definition is_open (e : event) : bool :=
  match e with OpenFile _ => true | Print _ => false end.

(** * Properties *)

(** ** Strings *)

Lemma truthy_nonempty (s : string) : Str.truthy s = true <-> s <> EmptyString.
Proof. destruct s; simpl; split; congruence. Qed.

Lemma no_space_snoc (cur : string) (c : ascii) :
  Str.no_space cur = true -> Str.isspace c = false ->
  Str.no_space (cur ++ String c EmptyString) = true.
Proof.
  induction cur as [|a cur IH]; simpl; intros Hcur Hc.
  - now rewrite Hc.
  - apply andb_true_iff in Hcur as [Ha Hcur].
    rewrite Ha; simpl; auto.
Qed.

Lemma split_from_tokens (s : string) :
  forall cur word,
    Str.no_space cur = true -> In word (Str.split_from cur s) ->
    Str.truthy word = true /\ Str.no_space word = true.
Proof.
  induction s as [|c s IH]; simpl; intros cur word Hcur Hin.
  - destruct (Str.truthy cur) eqn:Ht; [|contradiction].
    destruct Hin as [<-|[]]; auto.
  - destruct (Str.isspace c) eqn:Hc.
    + destruct (Str.truthy cur) eqn:Ht.
      * destruct Hin as [<-|Hin]; auto.
        now apply (IH EmptyString).
      * now apply (IH EmptyString).
    + apply (IH (cur ++ String c EmptyString)%string); auto.
      now apply no_space_snoc.
Qed.

Lemma split_tokens (line word : string) :
  In word (Str.split line) ->
  Str.truthy word = true /\ Str.no_space word = true.
Proof. now apply split_from_tokens. Qed.

Lemma lstrip_no_space (s : string) : Str.no_space s = true -> Str.lstrip s = s.
Proof.
  destruct s as [|c s]; simpl; auto.
  intros H. apply andb_true_iff in H as [Hc _].
  apply negb_true_iff in Hc. now rewrite Hc.
Qed.

Lemma rstrip_no_space (s : string) : Str.no_space s = true -> Str.rstrip s = s.
Proof.
  induction s as [|c s IH]; simpl; auto.
  intros H. apply andb_true_iff in H as [Hc Hs].
  apply negb_true_iff in Hc. rewrite (IH Hs), Hc.
  now destruct s.
Qed.

Lemma strip_no_space (s : string) : Str.no_space s = true -> Str.strip s = s.
Proof.
  intros H. unfold Str.strip.
  rewrite (lstrip_no_space s H). now apply rstrip_no_space.
Qed.

(** ** The counter *)

Lemma get_set (wc : Counter) (k w : string) (v : Z) :
  Cnt.get (Cnt.set wc k v) w = if String.eqb k w then v else Cnt.get wc w.
Proof.
  induction wc as [|[k' v'] r IH]; simpl.
  - reflexivity.
  - destruct (String.eqb_spec k' k) as [->|Hk]; simpl.
    + now destruct (String.eqb k w).
    + rewrite IH. destruct (String.eqb_spec k' w) as [->|Hw]; auto.
      apply String.eqb_neq in Hk. rewrite String.eqb_sym in Hk.
      now rewrite Hk.
Qed.

Lemma get_incr (wc : Counter) (k w : string) :
  Cnt.get (Cnt.incr wc k) w
  = if String.eqb k w then (Cnt.get wc k + 1)%Z else Cnt.get wc w.
Proof. apply get_set. Qed.

Lemma incr_changes (wc : Counter) (k : string) : Cnt.incr wc k <> wc.
Proof.
  intros H. pose proof (get_incr wc k k) as G.
  rewrite H, String.eqb_refl in G. lia.
Qed.

Lemma fold_add_shift (l : list Z) (a : Z) :
  fold_left Z.add l a = (a + fold_left Z.add l 0)%Z.
Proof.
  revert a. induction l as [|x l IH]; simpl; intros a.
  - lia.
  - rewrite (IH (a + x)%Z), (IH x). lia.
Qed.

Lemma total_cons (k : string) (v : Z) (r : Counter) :
  Cnt.total ((k, v) :: r) = (v + Cnt.total r)%Z.
Proof. unfold Cnt.total. simpl. apply fold_add_shift. Qed.

Lemma total_set (wc : Counter) (k : string) (v : Z) :
  Cnt.total (Cnt.set wc k v) = (Cnt.total wc - Cnt.get wc k + v)%Z.
Proof.
  induction wc as [|[k' v'] r IH]; simpl.
  - rewrite total_cons. unfold Cnt.total. simpl. lia.
  - destruct (String.eqb k' k); rewrite !total_cons; [lia|].
    rewrite IH. lia.
Qed.

Lemma total_incr (wc : Counter) (k : string) :
  Cnt.total (Cnt.incr wc k) = (Cnt.total wc + 1)%Z.
Proof. unfold Cnt.incr. rewrite total_set. lia. Qed.

Lemma in_keys_set (wc : Counter) (k x : string) (v : Z) :
  In x (Cnt.keys (Cnt.set wc k v)) -> x = k \/ In x (Cnt.keys wc).
Proof.
  induction wc as [|[k' v'] r IH]; simpl.
  - intros [<-|[]]; auto.
  - destruct (String.eqb k' k); simpl; intros [H|H]; auto.
    destruct (IH H); auto.
Qed.

Lemma NoDup_keys_set (wc : Counter) (k : string) (v : Z) :
  NoDup (Cnt.keys wc) -> NoDup (Cnt.keys (Cnt.set wc k v)).
Proof.
  induction wc as [|[k' v'] r IH]; simpl; intros H.
  - constructor; [intros []|constructor].
  - destruct (String.eqb_spec k' k) as [->|Hk]; simpl; auto.
    inversion H as [|? ? Hnotin Hr]; subst.
    constructor; auto.
    intros Hin. apply in_keys_set in Hin as [->|Hin]; auto.
Qed.

Lemma Forall_set (P : string * Z -> Prop) (wc : Counter) (k : string) (v : Z) :
  P (k, v) -> Forall P wc -> Forall P (Cnt.set wc k v).
Proof.
  intros Hk. induction wc as [|[k' v'] r IH]; simpl; intros H.
  - auto.
  - inversion H; subst.
    destruct (String.eqb_spec k' k) as [->|Hne]; auto.
Qed.

Lemma get_nonneg (wc : Counter) (k : string) :
  Forall (fun x => fst x <> EmptyString /\ (0 < snd x)%Z) wc ->
  (0 <= Cnt.get wc k)%Z.
Proof.
  induction 1 as [|[k' v'] r [_ Hv] _ IH]; simpl in *; [lia|].
  destruct (String.eqb k' k); lia.
Qed.

Lemma counter_inv_empty : counter_inv [].
Proof. split; constructor. Qed.

Lemma counter_inv_incr (wc : Counter) (w : string) :
  w <> EmptyString -> counter_inv wc -> counter_inv (Cnt.incr wc w).
Proof.
  intros Hw [Hnd Hall]. split.
  - now apply NoDup_keys_set.
  - apply Forall_set; auto. simpl. split; auto.
    pose proof (get_nonneg wc w Hall). lia.
Qed.

(** ** The loop body *)

Lemma count_word_cases (cs ic : bool) (wc : Counter) (word : string) :
  (survives cs ic word = false /\ count_word cs ic wc word = wc)
  \/ (exists w, cleaned_word cs word = Some w /\ w <> EmptyString
        /\ survives cs ic word = true
        /\ count_word cs ic wc word = Cnt.incr wc w).
Proof.
  unfold survives, count_word.
  destruct (cleaned_word cs word) as [w|]; auto.
  destruct (Str.truthy w) eqn:Ht; simpl; auto.
  destruct (ic && is_common (Str.lower w)); simpl; auto.
  right. exists w. repeat split; auto. now apply truthy_nonempty.
Qed.

Lemma count_word_total (cs ic : bool) (wc : Counter) (word : string) :
  Cnt.total (count_word cs ic wc word)
  = (Cnt.total wc + if survives cs ic word then 1 else 0)%Z.
Proof.
  destruct (count_word_cases cs ic wc word)
    as [[-> ->]|(w & _ & _ & -> & ->)].
  - lia.
  - apply total_incr.
Qed.

Lemma count_words_total (cs ic : bool) (words : list string) :
  forall wc,
    Cnt.total (fold_left (count_word cs ic) words wc)
    = (Cnt.total wc
       + Z.of_nat (List.length (filter (survives cs ic) words)))%Z.
Proof.
  induction words as [|word words IH]; simpl; intros wc.
  - lia.
  - rewrite IH, count_word_total.
    destruct (survives cs ic word); simpl List.length; lia.
Qed.

Lemma count_lines_total_from (cs ic : bool) (lines : list string) :
  forall wc,
    Cnt.total (fold_left (count_line cs ic) lines wc)
    = (Cnt.total wc
       + Z.of_nat (List.length (filter (survives cs ic) (tokens lines))))%Z.
Proof.
  induction lines as [|line lines IH]; simpl; intros wc.
  - lia.
  - rewrite IH. unfold count_line. rewrite count_words_total.
    rewrite filter_app, length_app. lia.
Qed.

Lemma counter_inv_count_word (cs ic : bool) (wc : Counter) (word : string) :
  counter_inv wc -> counter_inv (count_word cs ic wc word).
Proof.
  intros H.
  destruct (count_word_cases cs ic wc word)
    as [[_ ->]|(w & _ & Hw & _ & ->)]; auto.
  now apply counter_inv_incr.
Qed.

Lemma counter_inv_fold {A : Type} (f : Counter -> A -> Counter) (l : list A) :
  (forall wc x, counter_inv wc -> counter_inv (f wc x)) ->
  forall wc, counter_inv wc -> counter_inv (fold_left f l wc).
Proof.
  intros Hf. induction l as [|x l IH]; simpl; auto.
Qed.

Lemma counter_inv_count_lines (cs ic : bool) (lines : list string) :
  counter_inv (count_lines cs ic lines).
Proof.
  unfold count_lines. apply counter_inv_fold; [|apply counter_inv_empty].
  intros wc line H. unfold count_line. apply counter_inv_fold; auto.
  intros. now apply counter_inv_count_word.
Qed.

(** In case-sensitive mode without stop-word filtering, the count of a
    key is the number of tokens equal to it. *)
Lemma verbatim_fold (words : list string) (w : string) :
  (forall x, In x words -> Str.truthy x = true /\ Str.no_space x = true) ->
  forall wc,
    Cnt.get (fold_left (count_word true false) words wc) w
    = (Cnt.get wc w + Z.of_nat (count_occ string_dec words w))%Z.
Proof.
  induction words as [|x words IH]; simpl; intros Hall wc.
  - lia.
  - destruct (Hall x (or_introl eq_refl)) as [Ht Hs].
    rewrite IH by auto.
    unfold count_word, cleaned_word. rewrite (strip_no_space x Hs), Ht. simpl.
    rewrite get_incr.
    destruct (string_dec x w) as [->|Hne].
    + rewrite String.eqb_refl. lia.
    + apply String.eqb_neq in Hne. rewrite Hne. lia.
Qed.

Lemma verbatim_lines (lines : list string) (w : string) :
  forall wc,
    Cnt.get (fold_left (count_line true false) lines wc) w
    = (Cnt.get wc w + Z.of_nat (count_occ string_dec (tokens lines) w))%Z.
Proof.
  induction lines as [|line lines IH]; simpl; intros wc.
  - lia.
  - rewrite IH. unfold count_line.
    rewrite verbatim_fold by (intros x; apply split_tokens).
    rewrite count_occ_app. lia.
Qed.

(** ** The order of the sort keys *)

Lemma ascii_compare_refl (a : ascii) : Ascii.compare a a = Eq.
Proof. apply N.compare_refl. Qed.

Lemma ascii_compare_lt_trans (a b c : ascii) :
  Ascii.compare a b = Lt -> Ascii.compare b c = Lt -> Ascii.compare a c = Lt.
Proof.
  unfold Ascii.compare. rewrite !N.compare_lt_iff. apply N.lt_trans.
Qed.

Lemma str_compare_refl (s : string) : String.compare s s = Eq.
Proof.
  induction s as [|c s IH]; simpl; auto.
  now rewrite ascii_compare_refl.
Qed.

Lemma str_compare_lt_trans (a : string) :
  forall b c,
    String.compare a b = Lt -> String.compare b c = Lt ->
    String.compare a c = Lt.
Proof.
  induction a as [|x a IH]; intros [|y b] [|z c]; simpl;
    try discriminate; auto.
  destruct (Ascii.compare x y) eqn:Hxy; try discriminate;
    destruct (Ascii.compare y z) eqn:Hyz; try discriminate; intros H1 H2.
  - apply Ascii.compare_eq_iff in Hxy, Hyz. subst.
    rewrite ascii_compare_refl. eauto.
  - apply Ascii.compare_eq_iff in Hxy. subst. now rewrite Hyz.
  - apply Ascii.compare_eq_iff in Hyz. subst. now rewrite Hxy.
  - now rewrite (ascii_compare_lt_trans x y z).
Qed.

Lemma str_leb_cases (a b : string) :
  String.leb a b = true <-> a = b \/ String.ltb a b = true.
Proof.
  unfold String.leb, String.ltb.
  destruct (String.compare a b) eqn:H; split; auto; try discriminate.
  - intros _. left. now apply String.compare_eq_iff.
  - intros [->|]; [|discriminate]. now rewrite str_compare_refl in H.
Qed.

Lemma str_ltb_false (a b : string) :
  String.ltb b a = false <-> String.leb a b = true.
Proof.
  unfold String.leb, String.ltb. rewrite (String.compare_antisym b a).
  destruct (String.compare a b); simpl; split; intro; congruence.
Qed.

Lemma str_ltb_irrefl (a : string) : String.ltb a a = false.
Proof. unfold String.ltb. now rewrite str_compare_refl. Qed.

Lemma str_leb_trans (a b c : string) :
  String.leb a b = true -> String.leb b c = true -> String.leb a c = true.
Proof.
  rewrite !str_leb_cases. intros [->|H1] [->|H2]; auto.
  right. unfold String.ltb in *.
  destruct (String.compare a b) eqn:Hab; try discriminate.
  destruct (String.compare b c) eqn:Hbc; try discriminate.
  now rewrite (str_compare_lt_trans a b c).
Qed.

Lemma item_le_spec (a b : string * Z) :
  item_le a b <->
  (snd a > snd b)%Z \/ (snd a = snd b /\ String.leb (fst a) (fst b) = true).
Proof.
  unfold item_le, key_lt, sort_key, Str.lt. simpl.
  rewrite orb_false_iff, andb_false_iff, Z.ltb_ge, Z.eqb_neq, str_ltb_false.
  split.
  - intros [H1 [H2|H2]]; [left; lia|].
    destruct (Z.eq_dec (snd a) (snd b)); [right; auto|left; lia].
  - intros [H|[H1 H2]].
    + split; [lia|left; lia].
    + split; [lia|right; exact H2].
Qed.

Lemma item_le_total (a b : string * Z) : item_le a b \/ item_le b a.
Proof.
  rewrite !item_le_spec.
  destruct (Z.lt_trichotomy (snd a) (snd b)) as [H|[H|H]]; try (right; left; lia);
    try (left; left; lia).
  destruct (String.leb_total (fst a) (fst b)); [left|right]; right; auto.
Qed.

Lemma item_le_trans (a b c : string * Z) :
  item_le a b -> item_le b c -> item_le a c.
Proof.
  rewrite !item_le_spec.
  intros [H1|[H1 L1]] [H2|[H2 L2]]; try (left; lia).
  right. split; [lia|]. eapply str_leb_trans; eauto.
Qed.

Lemma item_le_antisym (a b : string * Z) : item_le a b -> item_le b a -> a = b.
Proof.
  rewrite !item_le_spec.
  intros [H1|[H1 L1]] [H2|[H2 L2]]; try lia.
  destruct a, b; simpl in *. f_equal; auto.
  now apply String.leb_antisym.
Qed.

(** ** Sorting *)

Lemma insert_item_perm (x : string * Z) (l : list (string * Z)) :
  Permutation (x :: l) (insert_item x l).
Proof.
  induction l as [|y r IH]; simpl; auto.
  destruct (key_lt (sort_key y) (sort_key x)); auto.
  rewrite perm_swap. now constructor.
Qed.

Lemma sorted_by_key_perm (l : list (string * Z)) :
  Permutation l (sorted_by_key l).
Proof.
  induction l as [|x l IH]; simpl; auto.
  rewrite <- insert_item_perm. now constructor.
Qed.

Lemma insert_item_sorted (x : string * Z) (l : list (string * Z)) :
  StronglySorted item_le l -> StronglySorted item_le (insert_item x l).
Proof.
  induction l as [|y r IH]; simpl; intros H.
  - repeat constructor.
  - apply StronglySorted_inv in H as [Hr Hy].
    destruct (key_lt (sort_key y) (sort_key x)) eqn:Hlt.
    + constructor; auto.
      assert (Hyx : item_le y x).
      { destruct (item_le_total y x) as [|Hxy]; auto.
        unfold item_le in Hxy. congruence. }
      rewrite Forall_forall in *. intros z Hz.
      apply (Permutation_in z (Permutation_sym (insert_item_perm x r))) in Hz.
      destruct Hz as [<-|Hz]; auto.
    + constructor; [constructor; auto|].
      constructor; [exact Hlt|].
      rewrite Forall_forall in *. intros z Hz.
      apply item_le_trans with y; auto.
Qed.

Lemma sorted_by_key_sorted (l : list (string * Z)) :
  StronglySorted item_le (sorted_by_key l).
Proof.
  induction l as [|x l IH]; simpl.
  - constructor.
  - now apply insert_item_sorted.
Qed.

Lemma sorted_unique (l : list (string * Z)) :
  forall l',
    StronglySorted item_le l -> StronglySorted item_le l' ->
    Permutation l l' -> l = l'.
Proof.
  induction l as [|a r IH]; intros l' Hs Hs' Hp.
  - now apply Permutation_nil in Hp.
  - destruct l' as [|a' r'].
    + apply Permutation_sym, Permutation_nil in Hp. discriminate.
    + apply StronglySorted_inv in Hs as [Hr Ha].
      apply StronglySorted_inv in Hs' as [Hr' Ha'].
      rewrite Forall_forall in Ha, Ha'.
      assert (a = a') as <-.
      { assert (Hin : In a (a' :: r'))
          by (apply (Permutation_in a Hp); now left).
        assert (Hin' : In a' (a :: r))
          by (apply (Permutation_in a' (Permutation_sym Hp)); now left).
        destruct Hin as [->|Hin]; auto.
        destruct Hin' as [->|Hin']; auto.
        apply item_le_antisym; auto. }
      f_equal. apply IH; auto. now apply Permutation_cons_inv in Hp.
Qed.

Lemma sorted_by_key_order_free (l l' : list (string * Z)) :
  Permutation l l' -> sorted_by_key l = sorted_by_key l'.
Proof.
  intros Hp. apply sorted_unique; try apply sorted_by_key_sorted.
  rewrite <- !sorted_by_key_perm. exact Hp.
Qed.

Lemma filter_perm {A : Type} (f : A -> bool) (l l' : list A) :
  Permutation l l' -> Permutation (filter f l) (filter f l').
Proof.
  induction 1 as [|x l l' _ IH|x y l|l l' l'' _ IH1 _ IH2]; simpl; auto.
  - destruct (f x); auto.
  - destruct (f x), (f y); auto. apply perm_swap.
  - now rewrite IH1.
Qed.

Lemma firstn_sorted {A : Type} (R : A -> A -> Prop) (n : nat) :
  forall l, StronglySorted R l -> StronglySorted R (firstn n l).
Proof.
  induction n as [|n IH]; intros [|x l] H; simpl; try constructor.
  - apply IH. now apply StronglySorted_inv in H.
  - apply StronglySorted_inv in H as [_ H].
    rewrite Forall_forall in *. intros y Hy. apply H.
    rewrite <- (firstn_skipn n l). apply in_or_app. now left.
Qed.

Lemma sorted_pair {A : Type} (R : A -> A -> Prop) (l1 l2 l3 : list A) (a b : A) :
  StronglySorted R (l1 ++ a :: l2 ++ b :: l3) -> R a b.
Proof.
  induction l1 as [|x l1 IH]; simpl; intros H.
  - apply StronglySorted_inv in H as [_ H].
    rewrite Forall_forall in H. apply H. apply in_elt.
  - apply IH. now apply StronglySorted_inv in H.
Qed.

(** ** The ranked list *)

Lemma slice_to_firstn {A : Type} (l : list A) (n : Z) :
  exists k, slice_to l n = firstn k l.
Proof. unfold slice_to. destruct (n <? 0)%Z; eauto. Qed.

Lemma sorted_words_prefix (wc : Counter) (top_n : option Z) (min_count : Z) :
  exists k,
    sorted_words wc top_n min_count
    = firstn k (sorted_by_key (filtered_counts wc min_count)).
Proof.
  unfold sorted_words.
  set (l := sorted_by_key (filtered_counts wc min_count)).
  destruct top_n as [n|].
  - destruct (n =? 0)%Z; [|apply slice_to_firstn].
    exists (List.length l). symmetry. apply firstn_all.
  - exists (List.length l). symmetry. apply firstn_all.
Qed.

Lemma sorted_words_sorted (wc : Counter) (top_n : option Z) (min_count : Z) :
  StronglySorted item_le (sorted_words wc top_n min_count).
Proof.
  destruct (sorted_words_prefix wc top_n min_count) as [k ->].
  apply firstn_sorted, sorted_by_key_sorted.
Qed.

Lemma NoDup_keys_filter (f : string * Z -> bool) (wc : Counter) :
  NoDup (Cnt.keys wc) -> NoDup (Cnt.keys (filter f wc)).
Proof.
  induction wc as [|x r IH]; simpl; intros H; auto.
  inversion H as [|? ? Hnotin Hr]; subst.
  destruct (f x); simpl; auto.
  constructor; auto.
  intros Hin. apply Hnotin. unfold Cnt.keys in *.
  apply in_map_iff in Hin as (y & Hy & Hin).
  apply filter_In in Hin as [Hin _].
  apply in_map_iff. eauto.
Qed.

Lemma NoDup_firstn {A : Type} (k : nat) (l : list A) :
  NoDup l -> NoDup (firstn k l).
Proof.
  intros H. rewrite <- (firstn_skipn k l) in H.
  now apply NoDup_app_remove_r in H.
Qed.

Lemma sorted_words_keys (wc : Counter) (top_n : option Z) (min_count : Z) :
  NoDup (Cnt.keys wc) -> NoDup (Cnt.keys (sorted_words wc top_n min_count)).
Proof.
  intros H.
  destruct (sorted_words_prefix wc top_n min_count) as [k ->].
  unfold Cnt.keys. rewrite <- firstn_map. apply NoDup_firstn.
  apply (Permutation_NoDup
           (Permutation_map fst
              (sorted_by_key_perm (filtered_counts wc min_count)))).
  now apply NoDup_keys_filter.
Qed.

Lemma sorted_words_top_zero (wc : Counter) (min_count : Z) :
  sorted_words wc (Some 0%Z) min_count = sorted_words wc None min_count.
Proof. reflexivity. Qed.

(** A [top_n] that is not below the number of entries that pass the
    filter keeps all of them. *)
Lemma sorted_words_top_large (wc : Counter) (n min_count : Z) :
  (Z.of_nat (List.length (filtered_counts wc min_count)) <= n)%Z ->
  sorted_words wc (Some n) min_count
  = sorted_by_key (filtered_counts wc min_count).
Proof.
  intros H. unfold sorted_words, slice_to.
  destruct (n =? 0)%Z; auto.
  destruct (n <? 0)%Z eqn:Hn; [apply Z.ltb_lt in Hn; lia|].
  apply firstn_all2.
  rewrite <- (Permutation_length
                (sorted_by_key_perm (filtered_counts wc min_count))).
  lia.
Qed.

(** A negative [top_n] drops that many entries from the end. *)
Lemma sorted_words_top_negative (wc : Counter) (n min_count : Z) :
  (n < 0)%Z ->
  sorted_words wc (Some n) min_count
  = let sorted := sorted_by_key (filtered_counts wc min_count) in
    firstn (List.length sorted - Z.to_nat (- n)) sorted.
Proof.
  intros H. unfold sorted_words, slice_to.
  destruct (Z.eqb_spec n 0); [lia|].
  destruct (Z.ltb_spec n 0); [|lia].
  simpl. f_equal. lia.
Qed.

Lemma display_results_last (wc : Counter) (top_n : option Z) (min_count : Z) :
  is_empty (filtered_counts wc min_count) = false ->
  last (display_results wc top_n min_count) EmptyString
  = ("Total word occurrences: " ++ Str.of_int (Cnt.total wc))%string.
Proof.
  intros H. unfold display_results. rewrite H.
  destruct wc as [|x wc]; [discriminate|]. cbn [is_empty].
  set (rows := map table_row _).
  set (t := ("Total word occurrences: " ++ _)%string).
  set (u := ("Total unique words: " ++ _)%string).
  change [rule; u; t] with ([rule; u] ++ [t]).
  rewrite !app_assoc. apply last_last.
Qed.

(** * The claims *)

(** C8.  The line "The cat sat on the mat. The cat was happy." under the
    default options (case-insensitive, no stop-word filtering) is counted
    as the 3, cat 2, and sat, on, mat, was, happy 1 each; the full stops
    are stripped from "mat." and "happy.". *)
Theorem scenario_counts :
  count_words_from_file scenario_fs "sample.txt" false false
  = ([OpenFile "sample.txt"],
     Some [("the", 3); ("cat", 2); ("sat", 1); ("on", 1); ("mat", 1);
           ("was", 1); ("happy", 1)]%Z)
  /\ Str.split scenario_line
     = ["The"; "cat"; "sat"; "on"; "the"; "mat."; "The"; "cat"; "was"; "happy."]
  /\ clean_word "mat." = Some "mat"
  /\ clean_word "happy." = Some "happy"
  /\ clean_word "The" = Some "the".
Proof. repeat split. Qed.

(** C9.  In case-sensitive mode every token of [line.split()] is non-empty
    and free of whitespace, [strip()] leaves it unchanged, and it is its
    own counting key: it is never dropped as empty, and without stop-word
    filtering the count of a key is the number of tokens equal to it, so
    that "cat." and "cat" and "Cat" are three keys. *)
Theorem case_sensitive_tokens_verbatim :
  (forall (line word : string) (ic : bool) (wc : Counter),
      In word (Str.split line) ->
      word <> EmptyString
      /\ Str.no_space word = true
      /\ Str.strip word = word
      /\ cleaned_word true word = Some word
      /\ count_word true false wc word = Cnt.incr wc word
      /\ count_word true ic wc word
         = if ic && is_common (Str.lower word) then wc
           else Cnt.incr wc word)
  /\ (forall (lines : list string) (w : string),
         Cnt.get (count_lines true false lines) w
         = Z.of_nat (count_occ string_dec (tokens lines) w))
  /\ count_lines true false ["cat. cat Cat"]
     = [("cat.", 1); ("cat", 1); ("Cat", 1)]%Z.
Proof.
  split; [|split]; [|intros lines w; apply verbatim_lines|reflexivity].
  intros line word ic wc Hin.
  destruct (split_tokens line word Hin) as [Ht Hs].
  pose proof (strip_no_space word Hs) as Hstrip.
  assert (Hkey : cleaned_word true word = Some word)
    by (unfold cleaned_word; now rewrite Hstrip).
  repeat split; auto.
  - now apply truthy_nonempty.
  - unfold count_word. now rewrite Hkey, Ht.
  - unfold count_word. now rewrite Hkey, Ht.
Qed.

Lemma case_sensitive_tokens_verbatim_witness :
  In "mat." (Str.split scenario_line)
  /\ Str.strip "mat." = "mat."
  /\ count_word true false [("mat", 1%Z)] "mat."
     = [("mat", 1%Z); ("mat.", 1%Z)].
Proof.
  assert (Hin : In "mat." (Str.split scenario_line))
    by (vm_compute; tauto).
  pose proof (proj1 case_sensitive_tokens_verbatim
                scenario_line "mat." false [("mat", 1%Z)] Hin)
    as (_ & _ & Hstrip & _ & Hcount & _).
  split; [exact Hin|]. split; [exact Hstrip|].
  rewrite Hcount. reflexivity.
Defined.

(** C7.  Every step of the aggregation, in both case modes and with or
    without stop-word filtering, keeps the invariant of the frequency
    mapping: the keys are unique, none is the empty string, and every
    count is strictly positive. *)
Theorem count_word_preserves_invariant :
  forall (cs ic : bool) (wc : Counter) (word : string),
    counter_inv wc -> counter_inv (count_word cs ic wc word).
Proof. intros. now apply counter_inv_count_word. Qed.

Lemma count_word_preserves_invariant_witness :
  counter_inv [("cat", 2%Z)]
  /\ counter_inv (count_word false false [("cat", 2%Z)] "...")
  /\ counter_inv (count_word true false [("cat", 2%Z)] "Cat.").
Proof.
  assert (H : counter_inv [("cat", 2%Z)]).
  { split.
    - constructor; [intros []|constructor].
    - constructor; [|constructor]. split; [discriminate|reflexivity]. }
  split; [exact H|]. split.
  - exact (count_word_preserves_invariant false false _ "..." H).
  - exact (count_word_preserves_invariant true false _ "Cat." H).
Defined.

(** C5.  After a successful aggregation the sum of the counts is the
    number of tokens that reach the increment (each adds exactly 1 to
    exactly one count and leaves the others), and it is the number the
    report prints in its last line, "Total word occurrences: ...". *)
Theorem total_occurrences_counts_survivors :
  forall (cs ic : bool) (lines : list string),
    let wc := count_lines cs ic lines in
    Cnt.total wc
    = Z.of_nat (List.length (filter (survives cs ic) (tokens lines)))
    /\ (forall word wc0,
           Cnt.total (count_word cs ic wc0 word)
           = (Cnt.total wc0 + if survives cs ic word then 1 else 0)%Z)
    /\ (forall word wc0,
           (survives cs ic word = false /\ count_word cs ic wc0 word = wc0)
           \/ (survives cs ic word = true
               /\ exists w,
                   forall k,
                     Cnt.get (count_word cs ic wc0 word) k
                     = if String.eqb w k then (Cnt.get wc0 k + 1)%Z
                       else Cnt.get wc0 k))
    /\ (forall top_n min_count,
           is_empty (filtered_counts wc min_count) = false ->
           last (display_results wc top_n min_count) EmptyString
           = ("Total word occurrences: " ++ Str.of_int (Cnt.total wc))%string).
Proof.
  intros cs ic lines wc. split; [|split; [|split]].
  - unfold wc, count_lines. rewrite count_lines_total_from. reflexivity.
  - intros. apply count_word_total.
  - intros word wc0.
    destruct (count_word_cases cs ic wc0 word)
      as [[Hs E]|(w & _ & _ & Hs & E)]; [now left|right].
    split; [exact Hs|]. exists w. intros k. rewrite E, get_incr.
    now destruct (String.eqb_spec w k) as [->|_].
  - intros. now apply display_results_last.
Qed.

Lemma total_occurrences_counts_survivors_witness :
  is_empty (filtered_counts (count_lines false true [scenario_line]) 2) = false
  /\ last (display_results (count_lines false true [scenario_line])
             (Some 1%Z) 2) EmptyString
     = "Total word occurrences: 5".
Proof.
  assert (H : is_empty (filtered_counts
                          (count_lines false true [scenario_line]) 2) = false)
    by reflexivity.
  split; [exact H|].
  rewrite (proj2 (proj2 (proj2 (total_occurrences_counts_survivors
                                  false true [scenario_line])))
             (Some 1%Z) 2%Z H).
  reflexivity.
Defined.

(** C4.  With [ignore_common_words] set, a token that has a canonical word
    [w] (the truthy value of [cleaned_word]) is dropped exactly when the
    lowercase form of [w] is in the stop-word set, in both case modes: in
    case-sensitive mode too the membership test folds case. *)
Theorem stop_words_fold_case :
  forall (cs : bool) (word w : string) (wc : Counter),
    cleaned_word cs word = Some w -> w <> EmptyString ->
    (survives cs true word = false <-> is_common (Str.lower w) = true)
    /\ (count_word cs true wc word = wc <-> is_common (Str.lower w) = true)
    /\ (is_common (Str.lower w) = false ->
        count_word cs true wc word = Cnt.incr wc w).
Proof.
  intros cs word w wc Hw Hne.
  apply truthy_nonempty in Hne.
  unfold survives, count_word. rewrite Hw, Hne. simpl.
  destruct (is_common (Str.lower w)); simpl.
  - repeat split; auto; discriminate.
  - repeat split; auto; try discriminate.
    intros H. now apply incr_changes in H.
Qed.

Lemma stop_words_fold_case_witness :
  cleaned_word true "The" = Some "The"
  /\ count_word true true [("cat", 1%Z)] "The" = [("cat", 1%Z)]
  /\ count_word true true [("cat", 1%Z)] "Then"
     = [("cat", 1%Z); ("Then", 1%Z)].
Proof.
  assert (H1 : cleaned_word true "The" = Some "The") by reflexivity.
  assert (H2 : cleaned_word true "Then" = Some "Then") by reflexivity.
  assert (N1 : "The" <> EmptyString) by discriminate.
  assert (N2 : "Then" <> EmptyString) by discriminate.
  split; [exact H1|]. split.
  - apply (proj1 (proj2 (stop_words_fold_case true "The" "The"
                           [("cat", 1%Z)] H1 N1))).
    reflexivity.
  - rewrite (proj2 (proj2 (stop_words_fold_case true "Then" "Then"
                             [("cat", 1%Z)] H2 N2)) eq_refl).
    reflexivity.
Defined.

(** C6.  The ranked list is sorted by count descending, then by word
    ascending: of two entries the earlier has the larger count, or the
    same count and a word that is not above the other's; with the unique
    keys of a mapping the words differ and the order is strict.  The order
    is total and antisymmetric, so the ranked list depends on the entries
    of the mapping only, not on the order they were inserted in. *)
Theorem ranking_sorted_and_order_free :
  forall (wc : Counter) (top_n : option Z) (min_count : Z),
    (forall l1 a l2 b l3,
        sorted_words wc top_n min_count = l1 ++ a :: l2 ++ b :: l3 ->
        (snd a > snd b)%Z
        \/ (snd a = snd b /\ String.leb (fst a) (fst b) = true))
    /\ (NoDup (Cnt.keys wc) ->
        forall l1 a l2 b l3,
          sorted_words wc top_n min_count = l1 ++ a :: l2 ++ b :: l3 ->
          (snd a > snd b)%Z
          \/ (snd a = snd b /\ String.ltb (fst a) (fst b) = true))
    /\ (forall a b : string * Z, item_le a b \/ item_le b a)
    /\ (forall wc',
           Permutation wc wc' ->
           sorted_words wc' top_n min_count = sorted_words wc top_n min_count).
Proof.
  intros wc top_n min_count.
  assert (Hpair : forall l1 a l2 b l3,
             sorted_words wc top_n min_count = l1 ++ a :: l2 ++ b :: l3 ->
             item_le a b).
  { intros l1 a l2 b l3 E.
    pose proof (sorted_words_sorted wc top_n min_count) as Hs.
    rewrite E in Hs. now apply sorted_pair in Hs. }
  split; [|split; [|split]].
  - intros l1 a l2 b l3 E. apply item_le_spec. eauto.
  - intros Hnd l1 a l2 b l3 E.
    destruct (proj1 (item_le_spec a b) (Hpair _ _ _ _ _ E)) as [H|[Hc Hw]];
      [now left|right; split; auto].
    apply str_leb_cases in Hw as [Hw|Hw]; auto.
    exfalso.
    pose proof (sorted_words_keys wc top_n min_count Hnd) as Hk.
    rewrite E in Hk. unfold Cnt.keys in Hk.
    rewrite map_app in Hk. apply NoDup_app_remove_l in Hk.
    simpl in Hk. inversion Hk as [|? ? Hnotin _]; subst.
    apply Hnotin. rewrite map_app. apply in_or_app. right. now left.
  - apply item_le_total.
  - intros wc' Hp. unfold sorted_words.
    now rewrite (sorted_by_key_order_free
                   (filtered_counts wc' min_count)
                   (filtered_counts wc min_count)
                   (filter_perm _ _ _ (Permutation_sym Hp))).
Qed.

Lemma ranking_sorted_and_order_free_witness :
  sorted_words [("b", 1); ("c", 2); ("a", 1)]%Z None 1
  = [("c", 2); ("a", 1); ("b", 1)]%Z
  /\ String.ltb "a" "b" = true
  /\ sorted_words [("a", 1); ("b", 1); ("c", 2)]%Z None 1
     = sorted_words [("b", 1); ("c", 2); ("a", 1)]%Z None 1.
Proof.
  set (wc := [("b", 1); ("c", 2); ("a", 1)]%Z).
  assert (E : sorted_words wc None 1
              = [("c", 2%Z)] ++ ("a", 1%Z) :: [] ++ ("b", 1%Z) :: [])
    by reflexivity.
  assert (Hnd : NoDup (Cnt.keys wc)).
  { repeat constructor; simpl; intuition discriminate. }
  assert (Hp : Permutation wc [("a", 1); ("b", 1); ("c", 2)]%Z).
  { apply Permutation_sym, (Permutation_cons_app [_; _] []). reflexivity. }
  destruct (ranking_sorted_and_order_free wc None 1%Z)
    as (_ & Hstrict & _ & Hfree).
  split; [exact E|]. split.
  - destruct (Hstrict Hnd _ _ _ _ _ E) as [H|[_ H]]; [discriminate H|exact H].
  - exact (Hfree _ Hp).
Defined.

(** C1.  [--top 0] and a negative [--top] do not give an empty list on
    the code: 0 is falsy in [if top_n:], so nothing is cut and all seven
    entries of the scenario are shown, and [sorted_words[:-1]] drops only
    the last entry. *)
Theorem top_zero_keeps_every_entry :
  sorted_words (count_lines false false [scenario_line]) (Some 0%Z) 1
  = [("the", 3); ("cat", 2); ("happy", 1); ("mat", 1); ("on", 1);
     ("sat", 1); ("was", 1)]%Z
  /\ sorted_words (count_lines false false [scenario_line]) (Some (-1)%Z) 1
     = [("the", 3); ("cat", 2); ("happy", 1); ("mat", 1); ("on", 1);
        ("sat", 1)]%Z
  /\ In (Print (table_row ("was", 1%Z)))
        (main int_decimal ["repetedwords.py"; "sample.txt"; "--top"; "0"]
              scenario_fs).
Proof.
  split; [reflexivity|]. split; [reflexivity|].
  vm_compute. tauto.
Qed.

(** ** The command line *)

Lemma contains_index (x : string) (l : list string) (i : nat) :
  index x l = Some i -> contains x l = true.
Proof.
  revert i. induction l as [|y r IH]; simpl; intros i H; [discriminate|].
  rewrite (String.eqb_sym x y).
  destruct (String.eqb y x); simpl; auto.
  destruct (index x r); [eauto|discriminate].
Qed.

Lemma read_flag_value (int : string -> option Z) (flag : string)
    (argv : list string) (i : nat) (v : string) :
  index flag argv = Some i -> nth_error argv (S i) = Some v ->
  read_flag int flag argv
  = match int v with Some n => Assigned n | None => Rejected end.
Proof.
  intros Hi Hv. unfold read_flag.
  rewrite (contains_index _ _ _ Hi), Hi, Nat.add_1_r, Hv.
  assert (S i < List.length argv)%nat as Hlt
      by (apply nth_error_Some; congruence).
  apply Nat.ltb_lt in Hlt. now rewrite Hlt.
Qed.

Lemma read_flag_last (int : string -> option Z) (flag : string)
    (argv : list string) (i : nat) :
  index flag argv = Some i -> nth_error argv (S i) = None ->
  read_flag int flag argv = Unset.
Proof.
  intros Hi Hv. unfold read_flag.
  rewrite (contains_index _ _ _ Hi), Hi, Nat.add_1_r.
  apply nth_error_None in Hv.
  destruct (Nat.ltb_spec (S i) (List.length argv)); [lia|reflexivity].
Qed.

(** The trace of a run whose options are accepted. *)
Lemma main_trace (int : string -> option Z) (argv : list string)
    (fs : filesystem) :
  (2 <= List.length argv)%nat ->
  read_flag int "--top" argv <> Rejected ->
  read_flag int "--min-count" argv <> Rejected ->
  let file_path := nth 1 argv EmptyString in
  let cs := contains "--case-sensitive" argv in
  let ic := contains "--ignore-common" argv in
  main int argv fs
  = map Print (preamble file_path cs ic)
    ++ OpenFile file_path
    :: match raised (fs file_path) with
       | Some e =>
           [Print (error_message file_path e);
            Print "Failed to process the file."]
       | None =>
           map Print
             (display_results
                (count_lines cs ic (lines_read (fs file_path)))
                (top_n_of (read_flag int "--top" argv))
                (min_count_of (read_flag int "--min-count" argv)))
       end.
Proof.
  intros Hlen Htop Hmin file_path cs ic. unfold main.
  destruct (Nat.ltb_spec (List.length argv) 2) as [|_]; [lia|].
  fold file_path cs ic.
  assert (E : analyze fs file_path cs ic
                (top_n_of (read_flag int "--top" argv))
                (min_count_of (read_flag int "--min-count" argv))
              = map Print (preamble file_path cs ic)
                ++ OpenFile file_path
                :: match raised (fs file_path) with
                   | Some e =>
                       [Print (error_message file_path e);
                        Print "Failed to process the file."]
                   | None =>
                       map Print
                         (display_results
                            (count_lines cs ic (lines_read (fs file_path)))
                            (top_n_of (read_flag int "--top" argv))
                            (min_count_of (read_flag int "--min-count" argv)))
                   end).
  { unfold analyze, count_words_from_file.
    destruct (raised (fs file_path)); reflexivity. }
  destruct (read_flag int "--top" argv) eqn:Et; try congruence;
    destruct (read_flag int "--min-count" argv) eqn:Em; try congruence;
    exact E.
Qed.

(** When the word after the first [--top] in [sys.argv] is one that
    [int] rejects, the run prints the invalid [--top] message and nothing
    else, and opens no file; the same holds for [--min-count] once
    [--top] has been accepted.  For a flag that is the last word of the
    command line the guard skips the assignment and the error branch is
    not taken. *)
Theorem invalid_flag_value_stops_before_reading :
  forall (int : string -> option Z) (argv : list string) (fs : filesystem),
    (forall i v,
        index "--top" argv = Some i -> nth_error argv (S i) = Some v ->
        int v = None ->
        main int argv fs = [Print top_error])
    /\ (forall i v,
           read_flag int "--top" argv <> Rejected ->
           index "--min-count" argv = Some i ->
           nth_error argv (S i) = Some v -> int v = None ->
           main int argv fs = [Print min_count_error])
    /\ (forall flag i,
           index flag argv = Some i -> nth_error argv (S i) = None ->
           read_flag int flag argv = Unset).
Proof.
  intros int argv fs.
  assert (Hlen : forall i v, nth_error argv (S i) = Some v ->
                             (List.length argv <? 2)%nat = false).
  { intros i v Hv. apply Nat.ltb_ge.
    assert (S i < List.length argv)%nat
      by (apply nth_error_Some; congruence).
    lia. }
  split; [|split].
  - intros i v Hi Hv Hint. unfold main.
    rewrite (Hlen i v Hv), (read_flag_value int _ _ _ _ Hi Hv), Hint.
    reflexivity.
  - intros i v Htop Hi Hv Hint. unfold main.
    rewrite (Hlen i v Hv), (read_flag_value int _ _ _ _ Hi Hv), Hint.
    destruct (read_flag int "--top" argv); congruence.
  - intros flag i Hi Hv. now apply read_flag_last with i.
Qed.

Lemma invalid_flag_value_stops_before_reading_witness :
  main int_decimal ["repetedwords.py"; "notes.txt"; "--top"; "abc"]
       scenario_fs
  = [Print top_error]
  /\ main int_decimal
          ["repetedwords.py"; "notes.txt"; "--top"; "3"; "--min-count"; "x"]
          scenario_fs
     = [Print min_count_error]
  /\ read_flag int_decimal "--min-count"
               ["repetedwords.py"; "notes.txt"; "--min-count"]
     = Unset.
Proof.
  split; [|split].
  - apply (proj1 (invalid_flag_value_stops_before_reading int_decimal
             ["repetedwords.py"; "notes.txt"; "--top"; "abc"] scenario_fs)
             2%nat "abc"); reflexivity.
  - apply (proj1 (proj2 (invalid_flag_value_stops_before_reading int_decimal
             ["repetedwords.py"; "notes.txt"; "--top"; "3"; "--min-count"; "x"]
             scenario_fs)) 4%nat "x");
      [vm_compute; discriminate|reflexivity|reflexivity|reflexivity].
  - apply (proj2 (proj2 (invalid_flag_value_stops_before_reading int_decimal
             ["repetedwords.py"; "notes.txt"; "--min-count"] scenario_fs))
             "--min-count" 2%nat); reflexivity.
Defined.

(** C2.  On the code a [--top] or a [--min-count] that is the last word
    of the command line, with no value after it, is not reported: the
    guard [index + 1 < len(sys.argv)] skips the subscript, so the handler
    of [IndexError] is never entered, the invalid-parameter message is
    not printed, and the file is opened and the report printed. *)
Theorem top_without_value_reads_file :
  let argv := ["repetedwords.py"; "notes.txt"; "--top"] in
  let trace := main int_decimal argv scenario_fs in
  let argv' := ["repetedwords.py"; "notes.txt"; "--min-count"] in
  let trace' := main int_decimal argv' scenario_fs in
  index "--top" argv = Some 2%nat
  /\ nth_error argv 3 = None
  /\ In (OpenFile "notes.txt") trace
  /\ In (Print "Total word occurrences: 10") trace
  /\ ~ In (Print top_error) trace
  /\ ~ In (Print min_count_error) trace
  /\ index "--min-count" argv' = Some 2%nat
  /\ nth_error argv' 3 = None
  /\ In (OpenFile "notes.txt") trace'
  /\ In (Print "Total word occurrences: 10") trace'
  /\ ~ In (Print top_error) trace'
  /\ ~ In (Print min_count_error) trace'.
Proof.
  vm_compute. repeat split; try tauto; intuition discriminate.
Qed.

(** C3, as the code has it.  A run whose options are accepted prints the
    three status lines and opens the file; when the read fails it then
    prints the one [Error...] line of the failure and the line "Failed to
    process the file.", and nothing of the report; when the read succeeds
    it prints what [display_results] prints for the complete mapping and
    neither of those two lines. *)
Theorem failed_run_output :
  forall (int : string -> option Z) (argv : list string) (fs : filesystem),
    (2 <= List.length argv)%nat ->
    read_flag int "--top" argv <> Rejected ->
    read_flag int "--min-count" argv <> Rejected ->
    let file_path := nth 1 argv EmptyString in
    let cs := contains "--case-sensitive" argv in
    let ic := contains "--ignore-common" argv in
    (forall e,
        raised (fs file_path) = Some e ->
        main int argv fs
        = map Print (preamble file_path cs ic)
          ++ [OpenFile file_path;
              Print (error_message file_path e);
              Print "Failed to process the file."])
    /\ (raised (fs file_path) = None ->
        main int argv fs
        = map Print (preamble file_path cs ic)
          ++ OpenFile file_path
          :: map Print
               (display_results
                  (count_lines cs ic (lines_read (fs file_path)))
                  (top_n_of (read_flag int "--top" argv))
                  (min_count_of (read_flag int "--min-count" argv)))).
Proof.
  intros int argv fs Hlen Htop Hmin file_path cs ic.
  pose proof (main_trace int argv fs Hlen Htop Hmin) as E. cbv zeta in E.
  fold file_path cs ic in E.
  split.
  - intros e He. now rewrite E, He.
  - intros He. now rewrite E, He.
Qed.

Lemma failed_run_output_witness :
  main int_decimal ["repetedwords.py"; "missing.txt"; "--top"; "3"] missing_fs
  = [Print "Analyzing file: missing.txt";
     Print "Case sensitive: False";
     Print "Ignore common words: False";
     OpenFile "missing.txt";
     Print "Error: File 'missing.txt' not found.";
     Print "Failed to process the file."].
Proof.
  assert (Hlen : (2 <= List.length
                         ["repetedwords.py"; "missing.txt"; "--top"; "3"])%nat)
    by (simpl; lia).
  assert (Htop : read_flag int_decimal "--top"
                   ["repetedwords.py"; "missing.txt"; "--top"; "3"]
                 <> Rejected) by (vm_compute; discriminate).
  assert (Hmin : read_flag int_decimal "--min-count"
                   ["repetedwords.py"; "missing.txt"; "--top"; "3"]
                 <> Rejected) by (vm_compute; discriminate).
  rewrite (proj1 (failed_run_output int_decimal
                    ["repetedwords.py"; "missing.txt"; "--top"; "3"]
                    missing_fs Hlen Htop Hmin)
             FileNotFoundError eq_refl).
  reflexivity.
Defined.

(** C3 as stated fails: a run on a missing file prints two lines that
    announce the failure, the [Error...] line of the read and "Failed to
    process the file.", not a single one. *)
Lemma failed_run_prints_two_failure_lines :
  let trace :=
    main int_decimal ["repetedwords.py"; "missing.txt"] missing_fs in
  filter announces_failure trace
  = [Print "Error: File 'missing.txt' not found.";
     Print "Failed to process the file."]
  /\ ~ (List.length (filter announces_failure trace) <= 1)%nat.
Proof.
  vm_compute. split; [reflexivity|]. intros H.
  apply le_S_n in H. inversion H.
Qed.

(** C10.  A run with a file path and accepted options prints the three
    status lines first and opens the file only after them, so the lines
    are in the output whatever reading the file does, a failure
    included. *)
Theorem preamble_before_file_access :
  forall (int : string -> option Z) (argv : list string) (fs : filesystem),
    (2 <= List.length argv)%nat ->
    read_flag int "--top" argv <> Rejected ->
    read_flag int "--min-count" argv <> Rejected ->
    let file_path := nth 1 argv EmptyString in
    exists rest,
      main int argv fs
      = Print ("Analyzing file: " ++ file_path)%string
        :: Print ("Case sensitive: "
                    ++ Str.of_bool (contains "--case-sensitive" argv))%string
        :: Print ("Ignore common words: "
                    ++ Str.of_bool (contains "--ignore-common" argv))%string
        :: OpenFile file_path :: rest
      /\ (forall e,
             raised (fs file_path) = Some e ->
             rest = [Print (error_message file_path e);
                     Print "Failed to process the file."]).
Proof.
  intros int argv fs Hlen Htop Hmin file_path.
  pose proof (main_trace int argv fs Hlen Htop Hmin) as E. cbv zeta in E.
  fold file_path in E. rewrite E. simpl.
  eexists. split; [reflexivity|].
  intros e He. now rewrite He.
Qed.

Lemma preamble_before_file_access_witness :
  exists rest,
    main int_decimal
         ["repetedwords.py"; "missing.txt"; "--case-sensitive"] missing_fs
    = Print "Analyzing file: missing.txt"
      :: Print "Case sensitive: True"
      :: Print "Ignore common words: False"
      :: OpenFile "missing.txt" :: rest.
Proof.
  assert (Hlen : (2 <= List.length
                         ["repetedwords.py"; "missing.txt";
                          "--case-sensitive"])%nat)
    by (simpl; lia).
  assert (Htop : read_flag int_decimal "--top"
                   ["repetedwords.py"; "missing.txt"; "--case-sensitive"]
                 <> Rejected) by (vm_compute; discriminate).
  assert (Hmin : read_flag int_decimal "--min-count"
                   ["repetedwords.py"; "missing.txt"; "--case-sensitive"]
                 <> Rejected) by (vm_compute; discriminate).
  destruct (preamble_before_file_access int_decimal
              ["repetedwords.py"; "missing.txt"; "--case-sensitive"]
              missing_fs Hlen Htop Hmin) as [rest [E _]].
  exists rest. exact E.
Defined.

(** * Further properties of the code *)

(** ** Characters *)

Lemma lower_char_isword (c : ascii) :
  Str.isword (Str.lower_char c) = Str.isword c.
Proof. destruct c as [[] [] [] [] [] [] [] []]; reflexivity. Qed.

Lemma lower_char_isspace (c : ascii) :
  Str.isspace (Str.lower_char c) = Str.isspace c.
Proof. destruct c as [[] [] [] [] [] [] [] []]; reflexivity. Qed.

Lemma lower_char_idem (c : ascii) :
  Str.lower_char (Str.lower_char c) = Str.lower_char c.
Proof. destruct c as [[] [] [] [] [] [] [] []]; reflexivity. Qed.

Lemma isword_not_space (c : ascii) :
  Str.isword c = true -> Str.isspace c = false.
Proof.
  destruct c as [[] [] [] [] [] [] [] []]; vm_compute; intros; congruence.
Qed.

Lemma lower_idem (s : string) : Str.lower (Str.lower s) = Str.lower s.
Proof.
  induction s as [|c s IH]; simpl; auto.
  now rewrite lower_char_idem, IH.
Qed.

Lemma no_space_lower (s : string) :
  Str.no_space (Str.lower s) = Str.no_space s.
Proof.
  induction s as [|c s IH]; simpl; auto.
  now rewrite lower_char_isspace, IH.
Qed.

Lemma select_lower_isword (s : string) :
  Str.select Str.isword (Str.lower s) = Str.lower (Str.select Str.isword s).
Proof.
  induction s as [|c s IH]; simpl; auto.
  rewrite lower_char_isword. destruct (Str.isword c); simpl; now rewrite IH.
Qed.

Lemma re_sub_punct_no_space (s : string) :
  Str.no_space s = true -> re_sub_punct s = Str.select Str.isword s.
Proof.
  unfold re_sub_punct. induction s as [|c s IH]; simpl; auto.
  intros H. apply andb_true_iff in H as [Hc Hs].
  apply negb_true_iff in Hc. rewrite Hc, orb_false_r, (IH Hs). reflexivity.
Qed.

Lemma all_chars_select (p : ascii -> bool) (s : string) :
  all_chars p (Str.select p s) = true.
Proof.
  induction s as [|c s IH]; simpl; auto.
  destruct (p c) eqn:Hc; simpl; auto. now rewrite Hc.
Qed.

Lemma select_all_chars (p : ascii -> bool) (s : string) :
  all_chars p s = true -> Str.select p s = s.
Proof.
  induction s as [|c s IH]; simpl; auto.
  intros H. apply andb_true_iff in H as [Hc Hs].
  now rewrite Hc, (IH Hs).
Qed.

Lemma all_chars_lower_isword (s : string) :
  all_chars Str.isword (Str.lower s) = all_chars Str.isword s.
Proof.
  induction s as [|c s IH]; simpl; auto.
  now rewrite lower_char_isword, IH.
Qed.

Lemma all_isword_no_space (s : string) :
  all_chars Str.isword s = true -> Str.no_space s = true.
Proof.
  induction s as [|c s IH]; simpl; auto.
  intros H. apply andb_true_iff in H as [Hc Hs].
  now rewrite (isword_not_space c Hc), (IH Hs).
Qed.

(** [clean_word] on a token: what is left is the lowercase form of its
    word characters. *)
Lemma clean_word_token (word : string) :
  Str.no_space word = true ->
  clean_word word
  = let cleaned := Str.lower (Str.select Str.isword word) in
    if Str.truthy cleaned then Some cleaned else None.
Proof.
  intros H. unfold clean_word.
  assert (Hl : Str.no_space (Str.lower word) = true)
    by now rewrite no_space_lower.
  rewrite (strip_no_space _ Hl), (re_sub_punct_no_space _ Hl).
  now rewrite select_lower_isword.
Qed.

Lemma truthy_lower (s : string) : Str.truthy (Str.lower s) = Str.truthy s.
Proof. now destruct s. Qed.

(** ** [clean_word] on tokens *)

Lemma clean_word_token_result (word c : string) :
  Str.no_space word = true -> clean_word word = Some c ->
  c = Str.select Str.isword (Str.lower word)
  /\ c <> EmptyString
  /\ all_chars Str.isword c = true
  /\ Str.lower c = c
  /\ clean_word c = Some c.
Proof.
  intros Hs H. rewrite (clean_word_token word Hs) in H. cbv zeta in H.
  destruct (Str.truthy (Str.lower (Str.select Str.isword word))) eqn:Ht;
    [|discriminate].
  injection H as <-.
  set (c := Str.lower (Str.select Str.isword word)) in *.
  assert (Hw : all_chars Str.isword c = true)
    by (unfold c; now rewrite all_chars_lower_isword, all_chars_select).
  assert (Hl : Str.lower c = c) by apply lower_idem.
  split; [unfold c; now rewrite select_lower_isword|].
  repeat split; auto.
  - now apply truthy_nonempty.
  - rewrite (clean_word_token c (all_isword_no_space c Hw)). cbv zeta.
    now rewrite (select_all_chars _ c Hw), Hl, Ht.
Qed.

(** X1.  For a token (no whitespace in it), what [clean_word] returns is
    the word characters of the lowercased token; it is not empty,
    consists of word characters only, is already lowercase, and
    [clean_word] returns it unchanged when applied to it again. *)
Theorem clean_word_canonical :
  forall word c : string,
    Str.no_space word = true -> clean_word word = Some c ->
    c = Str.select Str.isword (Str.lower word)
    /\ c <> EmptyString
    /\ all_chars Str.isword c = true
    /\ Str.lower c = c
    /\ clean_word c = Some c.
Proof. intros word c. apply clean_word_token_result. Qed.

Lemma clean_word_canonical_witness :
  clean_word "Don't!" = Some "dont" /\ clean_word "dont" = Some "dont".
Proof.
  assert (Hs : Str.no_space "Don't!" = true) by reflexivity.
  assert (H : clean_word "Don't!" = Some "dont") by reflexivity.
  split; [exact H|].
  exact (proj2 (proj2 (proj2 (proj2
           (clean_word_canonical "Don't!" "dont" Hs H))))).
Defined.

(** X2.  [clean_word] rejects a token (returns [None]) exactly when the
    token has no word character, that is no letter, digit or
    underscore. *)
Theorem clean_word_rejects :
  forall word : string,
    Str.no_space word = true ->
    (clean_word word = None <-> Str.select Str.isword word = EmptyString).
Proof.
  intros word Hs. rewrite (clean_word_token word Hs). cbv zeta.
  rewrite truthy_lower.
  destruct (Str.select Str.isword word); simpl; split;
    congruence.
Qed.

Lemma clean_word_rejects_witness :
  Str.no_space "--..!" = true /\ clean_word "--..!" = None.
Proof.
  assert (Hs : Str.no_space "--..!" = true) by reflexivity.
  split; [exact Hs|].
  apply (proj2 (clean_word_rejects "--..!" Hs)). reflexivity.
Defined.

(** ** The mapping as a multiset of keys *)

Lemma count_word_key (cs ic : bool) (wc : Counter) (word : string) :
  count_word cs ic wc word
  = match counting_key cs ic word with
    | Some w => Cnt.incr wc w
    | None => wc
    end.
Proof.
  unfold count_word, counting_key.
  destruct (cleaned_word cs word) as [w|]; auto.
  destruct (negb (Str.truthy w)); auto.
  destruct (ic && is_common (Str.lower w)); auto.
Qed.

Lemma counting_key_survives (cs ic : bool) (word : string) :
  survives cs ic word = true <-> exists w, counting_key cs ic word = Some w.
Proof.
  unfold survives, counting_key.
  destruct (cleaned_word cs word) as [w|].
  - destruct (Str.truthy w); simpl;
      [destruct (ic && is_common (Str.lower w)); simpl|];
      split; eauto; try discriminate; intros [? ?]; discriminate.
  - split; [discriminate|intros [? ?]; discriminate].
Qed.

Lemma count_lines_from_tokens (cs ic : bool) (lines : list string) :
  forall wc,
    fold_left (count_line cs ic) lines wc
    = fold_left (count_word cs ic) (tokens lines) wc.
Proof.
  induction lines as [|line lines IH]; simpl; intros wc; auto.
  now rewrite fold_left_app, IH.
Qed.

Lemma get_counted (cs ic : bool) (words : list string) (k : string) :
  forall wc,
    Cnt.get (fold_left (count_word cs ic) words wc) k
    = (Cnt.get wc k
       + Z.of_nat (count_occ string_dec (counted_keys cs ic words) k))%Z.
Proof.
  induction words as [|word words IH]; simpl; intros wc; [lia|].
  rewrite IH, count_occ_app, count_word_key.
  destruct (counting_key cs ic word) as [w|]; simpl; [|lia].
  rewrite get_incr.
  destruct (string_dec w k) as [->|Hne].
  - rewrite String.eqb_refl. lia.
  - apply String.eqb_neq in Hne. rewrite Hne. lia.
Qed.

Lemma get_count_lines (cs ic : bool) (lines : list string) (k : string) :
  Cnt.get (count_lines cs ic lines) k
  = Z.of_nat (count_occ string_dec (counted_keys cs ic (tokens lines)) k).
Proof.
  unfold count_lines. rewrite count_lines_from_tokens, get_counted.
  reflexivity.
Qed.

Lemma get_missing (wc : Counter) (k : string) :
  ~ In k (Cnt.keys wc) -> Cnt.get wc k = 0%Z.
Proof.
  induction wc as [|[k' v'] r IH]; simpl; auto.
  intros H. destruct (String.eqb_spec k' k) as [->|Hne]; [tauto|].
  apply IH. tauto.
Qed.

Lemma get_present (wc : Counter) (k : string) :
  Forall (fun x => fst x <> EmptyString /\ (0 < snd x)%Z) wc ->
  In k (Cnt.keys wc) -> (0 < Cnt.get wc k)%Z.
Proof.
  induction 1 as [|[k' v'] r [_ Hv] _ IH]; simpl; [tauto|].
  intros [->|Hin].
  - now rewrite String.eqb_refl.
  - destruct (String.eqb k' k); auto.
Qed.

Lemma in_keys_count_lines (cs ic : bool) (lines : list string) (k : string) :
  In k (Cnt.keys (count_lines cs ic lines))
  <-> In k (counted_keys cs ic (tokens lines)).
Proof.
  destruct (counter_inv_count_lines cs ic lines) as [_ Hpos].
  pose proof (get_count_lines cs ic lines k) as G.
  rewrite (count_occ_In string_dec (counted_keys cs ic (tokens lines)) k).
  split.
  - intros Hin. apply (get_present _ _ Hpos) in Hin. lia.
  - intros Hocc.
    destruct (in_dec string_dec k (Cnt.keys (count_lines cs ic lines)))
      as [|Hnot]; auto.
    apply get_missing in Hnot. lia.
Qed.

Lemma in_counted_keys (cs ic : bool) (words : list string) (k : string) :
  In k (counted_keys cs ic words)
  <-> exists word, In word words /\ counting_key cs ic word = Some k.
Proof.
  unfold counted_keys. rewrite in_flat_map. split.
  - intros (word & Hin & Hk). exists word. split; auto.
    destruct (counting_key cs ic word); [|contradiction].
    destruct Hk as [->|[]]. reflexivity.
  - intros (word & Hin & Hk). exists word. split; auto.
    rewrite Hk. now left.
Qed.

(** X3.  The mapping the aggregation builds is the multiset of the keys
    of the counted tokens: for every string, its count in the mapping
    (0 when it is no key) is the number of counted tokens whose key it
    is.  This holds in both case modes, with or without stop-word
    filtering. *)
Theorem counts_are_key_occurrences :
  forall (cs ic : bool) (lines : list string) (k : string),
    Cnt.get (count_lines cs ic lines) k
    = Z.of_nat (count_occ string_dec (counted_keys cs ic (tokens lines)) k).
Proof. intros. apply get_count_lines. Qed.

(** X4.  The keys of the mapping are exactly the keys of the counted
    tokens, and "Total unique words" ([len(word_counts)]) is the number
    of distinct ones. *)
Theorem unique_words_are_distinct_keys :
  forall (cs ic : bool) (lines : list string),
    (forall k,
        In k (Cnt.keys (count_lines cs ic lines))
        <-> exists word,
             In word (tokens lines) /\ counting_key cs ic word = Some k)
    /\ List.length (count_lines cs ic lines)
       = List.length
           (nodup string_dec (counted_keys cs ic (tokens lines))).
Proof.
  intros cs ic lines. split.
  - intros k. rewrite in_keys_count_lines. apply in_counted_keys.
  - destruct (counter_inv_count_lines cs ic lines) as [Hnd _].
    rewrite <- (length_map fst (count_lines cs ic lines)).
    apply Permutation_length, NoDup_Permutation; auto.
    + apply NoDup_nodup.
    + intros k. rewrite nodup_In. apply in_keys_count_lines.
Qed.

Lemma counting_key_inv (cs ic : bool) (word k : string) :
  counting_key cs ic word = Some k ->
  cleaned_word cs word = Some k
  /\ k <> EmptyString
  /\ (ic = true -> is_common (Str.lower k) = false).
Proof.
  unfold counting_key.
  destruct (cleaned_word cs word) as [w|]; [|discriminate].
  destruct (Str.truthy w) eqn:Ht; simpl; [|discriminate].
  destruct (ic && is_common (Str.lower w)) eqn:Hc; [discriminate|].
  intros H. injection H as <-.
  repeat split; auto.
  - now apply truthy_nonempty.
  - intros ->. exact Hc.
Qed.

Lemma in_tokens (lines : list string) (word : string) :
  In word (tokens lines) ->
  Str.truthy word = true /\ Str.no_space word = true.
Proof.
  unfold tokens. rewrite in_flat_map. intros (line & _ & Hin).
  now apply split_tokens with line.
Qed.

(** X5.  The mapping is empty exactly when no token of the input is
    counted (none at all, or every one skipped), and then
    [display_results] prints the single line "No words found or error
    occurred." whatever [top_n] and [min_count] are. *)
Theorem nothing_counted_message :
  forall (cs ic : bool) (lines : list string) (top_n : option Z)
         (min_count : Z),
    (count_lines cs ic lines = []
     <-> forall word, In word (tokens lines) -> survives cs ic word = false)
    /\ ((forall word, In word (tokens lines) -> survives cs ic word = false)
        -> display_results (count_lines cs ic lines) top_n min_count
           = ["No words found or error occurred."]).
Proof.
  intros cs ic lines top_n min_count.
  assert (Hiff : count_lines cs ic lines = []
                 <-> forall word, In word (tokens lines) ->
                                  survives cs ic word = false).
  { split.
    - intros E word Hin.
      destruct (survives cs ic word) eqn:Hs; auto.
      apply counting_key_survives in Hs as [w Hw].
      assert (Hk : In w (Cnt.keys (count_lines cs ic lines))).
      { apply in_keys_count_lines, in_counted_keys. eauto. }
      rewrite E in Hk. destruct Hk.
    - intros Hall.
      destruct (count_lines cs ic lines) as [|[k v] r] eqn:E; auto.
      assert (Hk : In k (Cnt.keys (count_lines cs ic lines)))
        by (rewrite E; now left).
      apply in_keys_count_lines, in_counted_keys in Hk
        as (word & Hin & Hkey).
      assert (Hs : survives cs ic word = true)
        by (apply counting_key_survives; eauto).
      rewrite (Hall word Hin) in Hs. discriminate. }
  split; auto.
  intros Hall. apply Hiff in Hall. now rewrite Hall.
Qed.

Lemma nothing_counted_message_witness :
  display_results (count_lines false true ["The... ?! -- of"; "  "])
                  (Some 3%Z) 1
  = ["No words found or error occurred."].
Proof.
  apply (proj2 (nothing_counted_message false true
                  ["The... ?! -- of"; "  "] (Some 3%Z) 1%Z)).
  intros word Hin. vm_compute in Hin.
  repeat (destruct Hin as [<-|Hin]; [reflexivity|]). destruct Hin.
Defined.

(** X6.  In case-insensitive mode every key of the mapping is canonical:
    not empty, made of word characters only (no punctuation, no
    whitespace) and in lowercase. *)
Theorem case_insensitive_keys_canonical :
  forall (ic : bool) (lines : list string) (k : string),
    In k (Cnt.keys (count_lines false ic lines)) ->
    k <> EmptyString
    /\ all_chars Str.isword k = true
    /\ Str.lower k = k.
Proof.
  intros ic lines k Hin.
  apply in_keys_count_lines, in_counted_keys in Hin as (word & Hw & Hkey).
  apply counting_key_inv in Hkey as (Hc & _ & _).
  apply in_tokens in Hw as [_ Hs].
  destruct (clean_word_token_result word k Hs Hc) as (_ & H1 & H2 & H3 & _).
  auto.
Qed.

Lemma case_insensitive_keys_canonical_witness :
  In "mat" (Cnt.keys (count_lines false false [scenario_line]))
  /\ all_chars Str.isword "mat" = true.
Proof.
  assert (Hin : In "mat" (Cnt.keys (count_lines false false [scenario_line])))
    by (vm_compute; tauto).
  split; [exact Hin|].
  exact (proj1 (proj2 (case_insensitive_keys_canonical
                         false [scenario_line] "mat" Hin))).
Defined.

(** X7.  With [ignore_common_words] set, no key of the mapping is a stop
    word in any letter case: the lowercase form of every key is outside
    [common_words], in case-sensitive mode too. *)
Theorem stop_words_never_counted :
  forall (cs : bool) (lines : list string) (k : string),
    In k (Cnt.keys (count_lines cs true lines)) ->
    is_common (Str.lower k) = false.
Proof.
  intros cs lines k Hin.
  apply in_keys_count_lines, in_counted_keys in Hin as (word & _ & Hkey).
  apply counting_key_inv in Hkey as (_ & _ & H). now apply H.
Qed.

Lemma stop_words_never_counted_witness :
  In "Cat" (Cnt.keys (count_lines true true ["The Cat AND the hat"]))
  /\ is_common (Str.lower "Cat") = false
  /\ count_lines true true ["The Cat AND the hat"]
     = [("Cat", 1%Z); ("hat", 1%Z)].
Proof.
  assert (Hin : In "Cat"
                   (Cnt.keys (count_lines true true ["The Cat AND the hat"])))
    by (vm_compute; tauto).
  split; [exact Hin|]. split; [|reflexivity].
  exact (stop_words_never_counted true _ "Cat" Hin).
Defined.

Lemma length_le_total (wc : Counter) :
  Forall (fun x => fst x <> EmptyString /\ (0 < snd x)%Z) wc ->
  (Z.of_nat (List.length wc) <= Cnt.total wc)%Z.
Proof.
  induction 1 as [|[k v] r [_ Hv] _ IH].
  - unfold Cnt.total. simpl. lia.
  - rewrite total_cons. simpl List.length. simpl in Hv. lia.
Qed.

(** X8.  In every report "Total unique words" is at most "Total word
    occurrences": the number of keys of the mapping never exceeds the sum
    of its counts, and both are 0 only together. *)
Theorem unique_at_most_total :
  forall (cs ic : bool) (lines : list string),
    let wc := count_lines cs ic lines in
    (Z.of_nat (List.length wc) <= Cnt.total wc)%Z
    /\ (Cnt.total wc = 0%Z <-> wc = []).
Proof.
  intros cs ic lines wc.
  destruct (counter_inv_count_lines cs ic lines) as [_ Hpos].
  fold wc in Hpos. pose proof (length_le_total wc Hpos) as Hle.
  split; auto. split.
  - intros H0. destruct wc; auto. simpl List.length in Hle. lia.
  - intros ->. reflexivity.
Qed.

(** ** What the table shows *)

Lemma in_firstn {A : Type} (k : nat) (l : list A) (x : A) :
  In x (firstn k l) -> In x l.
Proof.
  intros H. rewrite <- (firstn_skipn k l). apply in_or_app. now left.
Qed.

Lemma in_sorted_by_key (l : list (string * Z)) (x : string * Z) :
  In x (sorted_by_key l) <-> In x l.
Proof.
  split; apply Permutation_in;
    [apply Permutation_sym|]; apply sorted_by_key_perm.
Qed.

Lemma sorted_split {A : Type} (R : A -> A -> Prop) (l1 l2 : list A) (a b : A) :
  StronglySorted R (l1 ++ l2) -> In a l1 -> In b l2 -> R a b.
Proof.
  induction l1 as [|x l1 IH]; simpl; intros Hs Ha Hb; [contradiction|].
  apply StronglySorted_inv in Hs as [Hs Hx].
  destruct Ha as [->|Ha]; auto.
  rewrite Forall_forall in Hx. apply Hx, in_or_app. now right.
Qed.

Lemma sorted_words_perm (wc wc' : Counter) (top_n : option Z) (min_count : Z) :
  Permutation wc wc' ->
  sorted_words wc top_n min_count = sorted_words wc' top_n min_count.
Proof.
  intros Hp. unfold sorted_words.
  now rewrite (sorted_by_key_order_free
                 (filtered_counts wc min_count)
                 (filtered_counts wc' min_count)
                 (filter_perm _ _ _ Hp)).
Qed.

(** X9.  Every entry of the table is an entry of the mapping whose count
    is at least [min_count]; and when [top_n] is absent, 0, or not below
    the number of such entries, the table has every one of them. *)
Theorem table_entries_pass_min_count :
  forall (wc : Counter) (top_n : option Z) (min_count : Z) (x : string * Z),
    (In x (sorted_words wc top_n min_count) ->
     In x wc /\ (min_count <= snd x)%Z)
    /\ (match top_n with
        | None => True
        | Some n =>
            n = 0%Z
            \/ (Z.of_nat (List.length (filtered_counts wc min_count)) <= n)%Z
        end ->
        In x wc -> (min_count <= snd x)%Z ->
        In x (sorted_words wc top_n min_count)).
Proof.
  intros wc top_n min_count x. split.
  - intros Hin.
    destruct (sorted_words_prefix wc top_n min_count) as [k E].
    rewrite E in Hin. apply in_firstn in Hin.
    apply (proj1 (in_sorted_by_key _ _)) in Hin.
    unfold filtered_counts in Hin. apply filter_In in Hin as [H1 H2].
    split; auto. now apply Z.leb_le.
  - intros Htop Hin Hmin.
    assert (E : sorted_words wc top_n min_count
                = sorted_by_key (filtered_counts wc min_count)).
    { destruct top_n as [n|]; auto. destruct Htop as [->|Hn].
      - apply sorted_words_top_zero.
      - now apply sorted_words_top_large. }
    rewrite E. apply (proj2 (in_sorted_by_key _ _)). unfold filtered_counts.
    apply filter_In. split; auto. now apply Z.leb_le.
Qed.

Lemma table_entries_pass_min_count_witness :
  In ("cat", 2%Z)
     (sorted_words (count_lines false false [scenario_line]) (Some 9%Z) 2)
  /\ In ("cat", 2%Z) (count_lines false false [scenario_line]).
Proof.
  assert (Hin : In ("cat", 2%Z) (count_lines false false [scenario_line]))
    by (vm_compute; tauto).
  split; [|exact Hin].
  apply (proj2 (table_entries_pass_min_count
                  (count_lines false false [scenario_line])
                  (Some 9%Z) 2%Z ("cat", 2%Z))).
  - right. vm_compute. discriminate.
  - exact Hin.
  - simpl. lia.
Defined.

(** X10.  A positive [top_n] keeps the first [top_n] entries of the
    sorted list, so the table has min([top_n], number of entries that
    pass [min_count]) rows, and no entry left out has a larger count than
    an entry shown. *)
Theorem top_n_shows_highest :
  forall (wc : Counter) (n min_count : Z),
    (0 < n)%Z ->
    let passing := filtered_counts wc min_count in
    let shown := sorted_words wc (Some n) min_count in
    shown = firstn (Z.to_nat n) (sorted_by_key passing)
    /\ List.length shown = Nat.min (Z.to_nat n) (List.length passing)
    /\ (forall a b,
           In a shown -> In b passing -> ~ In b shown ->
           (snd b <= snd a)%Z).
Proof.
  intros wc n min_count Hn passing shown.
  assert (E : shown = firstn (Z.to_nat n) (sorted_by_key passing)).
  { unfold shown, sorted_words, slice_to. fold passing.
    destruct (Z.eqb_spec n 0); [lia|].
    destruct (Z.ltb_spec n 0); [lia|reflexivity]. }
  split; [exact E|]. split.
  - rewrite E, length_firstn.
    now rewrite <- (Permutation_length (sorted_by_key_perm passing)).
  - intros a b Ha Hb Hnot.
    apply (proj2 (in_sorted_by_key passing b)) in Hb.
    rewrite <- (firstn_skipn (Z.to_nat n) (sorted_by_key passing)) in Hb.
    rewrite <- E in Hb. apply in_app_or in Hb as [Hb|Hb]; [contradiction|].
    pose proof (sorted_by_key_sorted passing) as Hs.
    rewrite <- (firstn_skipn (Z.to_nat n) (sorted_by_key passing)) in Hs.
    rewrite <- E in Hs.
    pose proof (sorted_split _ _ _ a b Hs Ha Hb) as Hle.
    apply item_le_spec in Hle. lia.
Qed.

Lemma top_n_shows_highest_witness :
  sorted_words (count_lines false false [scenario_line]) (Some 2%Z) 1
  = [("the", 3%Z); ("cat", 2%Z)].
Proof.
  assert (Hn : (0 < 2)%Z) by lia.
  rewrite (proj1 (top_n_shows_highest
                    (count_lines false false [scenario_line]) 2 1 Hn)).
  reflexivity.
Defined.

(** ** The report and the order of the input *)

Lemma is_empty_perm {A : Type} (l l' : list A) :
  Permutation l l' -> is_empty l = is_empty l'.
Proof.
  intros Hp. destruct l, l'; auto.
  - apply Permutation_nil in Hp. discriminate.
  - apply Permutation_sym, Permutation_nil in Hp. discriminate.
Qed.

Lemma total_perm (wc wc' : Counter) :
  Permutation wc wc' -> Cnt.total wc = Cnt.total wc'.
Proof.
  induction 1 as [|[k v] l l' _ IH|[k v] [k' v'] l|l l' l'' _ IH1 _ IH2].
  - reflexivity.
  - rewrite !total_cons. lia.
  - rewrite !total_cons. lia.
  - lia.
Qed.

Lemma display_results_perm (wc wc' : Counter) (top_n : option Z)
    (min_count : Z) :
  Permutation wc wc' ->
  display_results wc top_n min_count = display_results wc' top_n min_count.
Proof.
  intros Hp. unfold display_results.
  rewrite (is_empty_perm _ _ Hp).
  rewrite (is_empty_perm _ _ (filter_perm _ _ _ Hp : Permutation
             (filtered_counts wc min_count) (filtered_counts wc' min_count))).
  rewrite (sorted_words_perm wc wc' top_n min_count Hp).
  now rewrite (Permutation_length Hp), (total_perm _ _ Hp).
Qed.

Lemma in_counter (wc : Counter) (k : string) (v : Z) :
  counter_inv wc ->
  (In (k, v) wc <-> Cnt.get wc k = v /\ (0 < v)%Z).
Proof.
  intros [Hnd Hpos]. induction wc as [|[k' v'] r IH]; simpl.
  - split; [contradiction|lia].
  - inversion Hnd as [|? ? Hnotin Hnd']; subst.
    inversion Hpos as [|? ? [_ Hv'] Hpos']; subst. simpl in Hv'.
    specialize (IH Hnd' Hpos').
    destruct (String.eqb_spec k' k) as [->|Hne].
    + split.
      * intros [E|Hin]; [injection E as <-; auto|].
        exfalso. apply Hnotin. unfold Cnt.keys.
        apply in_map_iff. exists (k, v). auto.
      * intros [-> _]. now left.
    + rewrite <- IH. split; [|tauto].
      intros [E|Hin]; auto. injection E as E1 _. contradiction.
Qed.

Lemma counter_ext_perm (wc wc' : Counter) :
  counter_inv wc -> counter_inv wc' ->
  (forall k, Cnt.get wc k = Cnt.get wc' k) ->
  Permutation wc wc'.
Proof.
  intros H H' Hget.
  apply NoDup_Permutation.
  - apply (NoDup_map_inv fst), H.
  - apply (NoDup_map_inv fst), H'.
  - intros [k v]. rewrite (in_counter wc k v H), (in_counter wc' k v H').
    now rewrite Hget.
Qed.

(** X11.  What [display_results] prints depends on the entries of the
    mapping only, not on the order in which the keys were inserted: two
    mappings with the same entries give the same lines, header, rows and
    totals included. *)
Theorem report_ignores_insertion_order :
  forall (wc wc' : Counter) (top_n : option Z) (min_count : Z),
    Permutation wc wc' ->
    display_results wc top_n min_count = display_results wc' top_n min_count.
Proof. intros. now apply display_results_perm. Qed.

Lemma report_ignores_insertion_order_witness :
  display_results [("b", 1); ("a", 1)]%Z None 1
  = display_results [("a", 1); ("b", 1)]%Z None 1.
Proof.
  apply report_ignores_insertion_order. apply perm_swap.
Defined.

(** X12.  The whole report depends on the tokens of the input as a
    multiset: two inputs whose tokens are a rearrangement of each other
    (other line breaks, another order of the words) give mappings with
    the same entries and the same printed report. *)
Theorem report_ignores_token_order :
  forall (cs ic : bool) (lines lines' : list string) (top_n : option Z)
         (min_count : Z),
    Permutation (tokens lines) (tokens lines') ->
    Permutation (count_lines cs ic lines) (count_lines cs ic lines')
    /\ display_results (count_lines cs ic lines) top_n min_count
       = display_results (count_lines cs ic lines') top_n min_count.
Proof.
  intros cs ic lines lines' top_n min_count Hp.
  assert (Hc : Permutation (count_lines cs ic lines)
                           (count_lines cs ic lines')).
  { apply counter_ext_perm; try apply counter_inv_count_lines.
    intros k. rewrite !get_count_lines. f_equal.
    apply Permutation_count_occ. unfold counted_keys.
    now apply Permutation_flat_map. }
  split; auto. now apply display_results_perm.
Qed.

Lemma report_ignores_token_order_witness :
  display_results (count_lines false false ["b a"; "a"]) None 1
  = display_results (count_lines false false ["a b a"]) None 1.
Proof.
  assert (Hp : Permutation (tokens ["b a"; "a"]) (tokens ["a b a"])).
  { change (Permutation ["b"; "a"; "a"] ["a"; "b"; "a"]). apply perm_swap. }
  exact (proj2 (report_ignores_token_order false false
                  ["b a"; "a"] ["a b a"] None 1%Z Hp)).
Defined.

Lemma filtered_counts_all (wc : Counter) (min_count : Z) :
  Forall (fun x => fst x <> EmptyString /\ (0 < snd x)%Z) wc ->
  (min_count <= 1)%Z -> filtered_counts wc min_count = wc.
Proof.
  intros Hpos Hm. unfold filtered_counts.
  induction Hpos as [|x r [_ Hx] _ IH]; simpl; auto.
  destruct (Z.leb_spec min_count (snd x)); [now rewrite IH|lia].
Qed.

(** X13.  With the default [min_count] of 1 (or any smaller one) nothing
    is filtered out of an aggregated mapping, so without [top_n] the
    table lists every counted word exactly once. *)
Theorem default_min_count_shows_all :
  forall (cs ic : bool) (lines : list string) (min_count : Z),
    (min_count <= 1)%Z ->
    let wc := count_lines cs ic lines in
    filtered_counts wc min_count = wc
    /\ Permutation wc (sorted_words wc None min_count).
Proof.
  intros cs ic lines min_count Hm wc.
  destruct (counter_inv_count_lines cs ic lines) as [_ Hpos]. fold wc in Hpos.
  pose proof (filtered_counts_all wc min_count Hpos Hm) as E.
  split; auto. unfold sorted_words. rewrite E. apply sorted_by_key_perm.
Qed.

Lemma default_min_count_shows_all_witness :
  filtered_counts (count_lines false false [scenario_line]) 1
  = count_lines false false [scenario_line].
Proof.
  assert (Hm : (1 <= 1)%Z) by lia.
  exact (proj1 (default_min_count_shows_all false false [scenario_line] 1 Hm)).
Defined.

(** ** The table rows *)

Lemma str_length_app (a b : string) :
  String.length (a ++ b) = (String.length a + String.length b)%nat.
Proof. induction a as [|c a IH]; simpl; auto. Qed.

Lemma length_repeat (c : ascii) (n : nat) :
  String.length (Str.repeat c n) = n.
Proof. induction n as [|n IH]; simpl; auto. Qed.

Lemma ljust_length (s : string) (w : nat) :
  String.length (Str.ljust s w) = Nat.max w (String.length s).
Proof. unfold Str.ljust. rewrite str_length_app, length_repeat. lia. Qed.

Lemma prefix_app (s a b : string) :
  String.prefix s a = true -> String.prefix s (a ++ b) = true.
Proof.
  revert s. induction a as [|d a IH]; intros [|c s] H; simpl in *;
    try discriminate H.
  - now destruct b.
  - reflexivity.
  - destruct (ascii_dec c d); [auto|discriminate H].
Qed.

Lemma prefix_self_app (s t : string) : String.prefix s (s ++ t) = true.
Proof.
  induction s as [|c s IH]; simpl.
  - now destruct t.
  - destruct (ascii_dec c c); [auto|contradiction].
Qed.

(** X14.  A table row keeps the word whole at its start, pads the word
    to 20 columns and the count to 10 and never cuts either: its length
    is max(20, length of the word) + 1 + max(10, digits of the count), so
    a word longer than 20 characters widens its row. *)
Theorem table_row_layout :
  forall x : string * Z,
    String.prefix (fst x) (table_row x) = true
    /\ String.length (table_row x)
       = (Nat.max 20 (String.length (fst x)) + 1
          + Nat.max 10 (String.length (Str.of_int (snd x))))%nat.
Proof.
  intros x. unfold table_row. split.
  - apply prefix_app. unfold Str.ljust. apply prefix_self_app.
  - rewrite !str_length_app, !ljust_length. simpl String.length. lia.
Qed.

(** ** The command line *)

Lemma not_open_in_prints (l : list string) (p : string) :
  ~ In (OpenFile p) (map Print l).
Proof.
  intros H. apply in_map_iff in H as (s & E & _). discriminate.
Qed.

Lemma no_open_in_prints (l : list string) : filter is_open (map Print l) = [].
Proof. induction l as [|s l IH]; simpl; auto. Qed.

(** The two shapes of a run: prints only, or the status lines, one
    [open] of [sys.argv[1]], and prints. *)
Lemma main_shape (int : string -> option Z) (argv : list string)
    (fs : filesystem) :
  (exists l, main int argv fs = map Print l)
  \/ ((2 <= List.length argv)%nat
      /\ read_flag int "--top" argv <> Rejected
      /\ read_flag int "--min-count" argv <> Rejected
      /\ exists l1 l2,
          main int argv fs
          = map Print l1 ++ OpenFile (nth 1 argv EmptyString) :: map Print l2).
Proof.
  destruct (Nat.ltb_spec (List.length argv) 2) as [Hlt|Hge].
  - left. exists usage. unfold main.
    apply Nat.ltb_lt in Hlt. now rewrite Hlt.
  - destruct (read_flag int "--top" argv) eqn:Et.
    3: { left. exists [top_error]. unfold main.
         apply Nat.ltb_ge in Hge. now rewrite Hge, Et. }
    all: destruct (read_flag int "--min-count" argv) eqn:Em.
    3, 6: left; exists [min_count_error]; unfold main;
      apply Nat.ltb_ge in Hge; now rewrite Hge, Et, Em.
    all: right;
      assert (Ht : read_flag int "--top" argv <> Rejected) by congruence;
      assert (Hm : read_flag int "--min-count" argv <> Rejected)
        by congruence;
      pose proof (main_trace int argv fs Hge Ht Hm) as E; cbv zeta in E;
      rewrite Et, Em in *;
      (split; [exact Hge|]); (split; [discriminate|]);
      (split; [discriminate|]);
      rewrite E; eexists;
      destruct (raised (fs (nth 1 argv EmptyString)));
      [exists [error_message (nth 1 argv EmptyString) e;
               "Failed to process the file."]; reflexivity
      |eexists; reflexivity].
Qed.

(** X15.  A run opens at most one file, and only [sys.argv[1]]: no file
    is opened when the command line has no file argument (the usage text
    is printed instead) or when [--top] or [--min-count] is rejected. *)
Theorem opens_only_the_given_file :
  forall (int : string -> option Z) (argv : list string) (fs : filesystem),
    (forall p,
        In (OpenFile p) (main int argv fs) ->
        p = nth 1 argv EmptyString
        /\ (2 <= List.length argv)%nat
        /\ read_flag int "--top" argv <> Rejected
        /\ read_flag int "--min-count" argv <> Rejected)
    /\ (List.length (filter is_open (main int argv fs)) <= 1)%nat
    /\ ((List.length argv < 2)%nat -> main int argv fs = map Print usage).
Proof.
  intros int argv fs. split; [|split].
  - intros p Hin.
    destruct (main_shape int argv fs)
      as [[l E]|(Hlen & Ht & Hm & l1 & l2 & E)]; rewrite E in Hin.
    + now apply not_open_in_prints in Hin.
    + apply in_app_or in Hin as [Hin|[Hin|Hin]].
      * now apply not_open_in_prints in Hin.
      * injection Hin as <-. auto.
      * now apply not_open_in_prints in Hin.
  - destruct (main_shape int argv fs)
      as [[l E]|(_ & _ & _ & l1 & l2 & E)]; rewrite E.
    + rewrite no_open_in_prints. simpl. lia.
    + rewrite filter_app. simpl. rewrite !no_open_in_prints. simpl. lia.
  - intros Hlt. unfold main. apply Nat.ltb_lt in Hlt. now rewrite Hlt.
Qed.

Lemma opens_only_the_given_file_witness :
  main int_decimal ["repetedwords.py"] scenario_fs = map Print usage.
Proof.
  apply (proj2 (proj2 (opens_only_the_given_file int_decimal
                         ["repetedwords.py"] scenario_fs))).
  simpl. lia.
Defined.

Lemma index_first (flag : string) (pre rest : list string) :
  ~ In flag pre -> index flag (pre ++ flag :: rest) = Some (List.length pre).
Proof.
  induction pre as [|y pre IH]; simpl; intros H.
  - now rewrite String.eqb_refl.
  - destruct (String.eqb_spec y flag) as [->|Hne]; [tauto|].
    rewrite IH by tauto. reflexivity.
Qed.

Lemma contains_absent (flag : string) (l : list string) :
  ~ In flag l -> contains flag l = false.
Proof.
  induction l as [|y l IH]; simpl; auto. intros H.
  destruct (String.eqb_spec flag y) as [->|Hne]; [tauto|].
  apply IH. tauto.
Qed.

(** X16.  Only the first occurrence of a numeric flag counts: the value
    read is the word right after it, whatever follows (a later
    occurrence of the flag included); a first occurrence at the very end
    of the command line, and a command line without the flag, leave the
    default. *)
Theorem first_occurrence_decides :
  forall (int : string -> option Z) (flag : string)
         (pre : list string) (v : string) (rest : list string),
    ~ In flag pre ->
    read_flag int flag (pre ++ flag :: v :: rest)
    = match int v with Some n => Assigned n | None => Rejected end
    /\ read_flag int flag (pre ++ [flag]) = Unset
    /\ read_flag int flag pre = Unset.
Proof.
  intros int flag pre v rest Hpre. split; [|split].
  - apply read_flag_value with (List.length pre).
    + now apply index_first.
    + change (S (List.length pre)) with (1 + List.length pre)%nat.
      rewrite nth_error_app2 by lia.
      replace (1 + List.length pre - List.length pre)%nat with 1%nat by lia.
      reflexivity.
  - apply read_flag_last with (List.length pre).
    + now apply index_first.
    + apply nth_error_None. rewrite length_app. simpl. lia.
  - unfold read_flag. now rewrite contains_absent.
Qed.

Lemma first_occurrence_decides_witness :
  read_flag int_decimal "--top"
            ["repetedwords.py"; "f.txt"; "--top"; "5"; "--top"; "abc"]
  = Assigned 5.
Proof.
  assert (Hpre : ~ In "--top" ["repetedwords.py"; "f.txt"]).
  { simpl. intros [H|[H|[]]]; discriminate. }
  exact (proj1 (first_occurrence_decides int_decimal "--top"
                  ["repetedwords.py"; "f.txt"] "5" ["--top"; "abc"] Hpre)).
Defined.

(** ** Line breaks *)

Lemma split_from_space (a b : string) (c : ascii) :
  Str.isspace c = true ->
  forall cur,
    Str.split_from cur (a ++ String c b)
    = Str.split_from cur a ++ Str.split b.
Proof.
  intros Hc. induction a as [|d a IH]; simpl; intros cur.
  - rewrite Hc. now destruct (Str.truthy cur).
  - destruct (Str.isspace d); [destruct (Str.truthy cur)|];
      simpl; now rewrite IH.
Qed.

Lemma tokens_app (l1 l2 : list string) :
  tokens (l1 ++ l2) = tokens l1 ++ tokens l2.
Proof. apply flat_map_app. Qed.

(** X17.  Where the lines of the file break does not matter: a line that
    holds two pieces joined by a whitespace character yields the tokens
    of the two pieces, so the mapping is the same as for the two pieces
    read as separate lines. *)
Theorem line_breaks_do_not_matter :
  forall (cs ic : bool) (before after : list string) (a b : string)
         (c : ascii),
    Str.isspace c = true ->
    Str.split (a ++ String c b) = Str.split a ++ Str.split b
    /\ count_lines cs ic (before ++ (a ++ String c b)%string :: after)
       = count_lines cs ic (before ++ a :: b :: after).
Proof.
  intros cs ic before after a b c Hc.
  assert (E : Str.split (a ++ String c b) = Str.split a ++ Str.split b)
    by (apply split_from_space; auto).
  split; auto.
  unfold count_lines. rewrite !count_lines_from_tokens. f_equal.
  rewrite !tokens_app. f_equal. unfold tokens. simpl.
  now rewrite E, app_assoc.
Qed.

Lemma line_breaks_do_not_matter_witness :
  count_lines false false ["the cat sat"]
  = count_lines false false ["the cat"; "sat"].
Proof.
  assert (Hc : Str.isspace " " = true) by reflexivity.
  exact (proj2 (line_breaks_do_not_matter false false [] []
                  "the cat" "sat" " " Hc)).
Defined.
